(** * Priority configuration resolver and tool registry / filter

    A shallow embedding of the configuration resolver
    ([src/config/resolver.ts], [src/config/defaults.ts]) and of the tool
    registry ([src/tools/registry.ts]), with the properties of the
    specification stated and settled against it; then of the
    configuration section of the health check tool
    ([src/tools/examples/health-check.ts]) and of the registration of the
    example tools at start-up ([src/index.ts]), with further properties
    of the code.

    Modelling conventions.
    - A JavaScript string is a [string]: a sequence of 8-bit code units
      (the alphabet of header values).
    - A configuration object whose prototype is [Object.prototype]
      ([FlexibleConfig]) is the map of its own properties, a
      [gmap string JsValue]. The objects the resolver assigns request
      keys to are [JsObject]s: own properties and a prototype, so that
      an assignment to [__proto__], a read through the prototype chain
      and a call of a shadowed [hasOwnProperty] behave as in the code;
      a call that throws makes the resolution [None].
    - On the side of the registry, reading a configuration field that
      names a member of [Object.prototype] is outside the model.
    - A JavaScript number is kept as the exact rational value of its
      literal; the rounding to binary64 is not modelled.
    - [console.log] / [console.warn] output and the [timestamp] of a
      resolution are not part of the model. *)

From Stdlib Require Import Ascii String QArith.
From stdpp Require Import gmap strings list fin_maps pretty.

Local Open Scope string_scope.
Local Open Scope Z_scope.
Local Open Scope list_scope.

(** ** JavaScript values *)

#[local] Set Warnings "-register-all".

Inductive JsValue : Type :=
| JUndefined
| JNull
| JBool (b : bool)
| JNum (q : Q)
| JStr (s : string)
| JArr (items : list JsValue)
| JObj (fields : list (string * JsValue)).

(** [Array.isArray(v)] *)
Definition isArray (v : JsValue) : bool :=
  match v with JArr _ => true | _ => false end.

(** [v !== undefined] *)
Definition is_defined (v : JsValue) : bool :=
  match v with JUndefined => false | _ => true end.

(** Property assignment [o[k] = v] on the own properties of an object kept
    in insertion order: an existing key keeps its position. *)
Fixpoint obj_set (k : string) (v : JsValue) (o : list (string * JsValue))
  : list (string * JsValue) :=
  match o with
  | [] => [(k, v)]
  | (k', v') :: o' =>
      if String.eqb k k' then (k, v) :: o' else (k', v') :: obj_set k v o'
  end.

(** ** Characters *)

Definition dquote : ascii := "034"%char.
Definition backslash : ascii := "092"%char.

Definition code (c : ascii) : N := N_of_ascii c.

Definition is_digit (c : ascii) : bool :=
  ((48 <=? code c) && (code c <=? 57))%N.

Definition is_lower (c : ascii) : bool :=
  ((97 <=? code c) && (code c <=? 122))%N.

(** [letter.toUpperCase()] for a letter matched by [[a-z]] *)
Definition toUpperCase_az (c : ascii) : ascii := ascii_of_N (code c - 32).

(** [c.toLowerCase()] on one code unit: A-Z and the Latin-1 capitals *)
Definition toLowerCase_char (c : ascii) : ascii :=
  let n := code c in
  if (((65 <=? n) && (n <=? 90))
      || ((192 <=? n) && (n <=? 222) && negb (n =? 215)))%N
  then ascii_of_N (n + 32) else c.

Fixpoint toLowerCase (s : string) : string :=
  match s with
  | EmptyString => EmptyString
  | String c r => String (toLowerCase_char c) (toLowerCase r)
  end.

(** white space of the JSON grammar *)
Definition is_json_ws (c : ascii) : bool :=
  ((code c =? 32) || (code c =? 9) || (code c =? 10) || (code c =? 13))%N.

(** white space removed by [String.prototype.trim] (code units below 256) *)
Definition is_trim_ws (c : ascii) : bool :=
  (((9 <=? code c) && (code c <=? 13)) || (code c =? 32) || (code c =? 160))%N.

Fixpoint startsWith (p s : string) : bool :=
  match p, s with
  | EmptyString, _ => true
  | String a p', String b s' => Ascii.eqb a b && startsWith p' s'
  | String _ _, EmptyString => false
  end.

(** [s.slice(n)] *)
Fixpoint slice_from (n : nat) (s : string) : string :=
  match n, s with
  | S n', String _ r => slice_from n' r
  | _, _ => s
  end.

Definition endsWith (p s : string) : bool :=
  startsWith (String.rev p) (String.rev s).

(** ** [JSON.parse] *)

Module JSON.

Fixpoint skip_ws (s : string) : string :=
  match s with
  | String c r => if is_json_ws c then skip_ws r else s
  | EmptyString => s
  end.

(** longest prefix of decimal digits, and the rest *)
Fixpoint span_digits (s : string) : string * string :=
  match s with
  | String c r =>
      if is_digit c
      then let '(ds, rest) := span_digits r in (String c ds, rest)
      else (EmptyString, s)
  | EmptyString => (EmptyString, EmptyString)
  end.

Definition digit_val (c : ascii) : Z := Z.of_N (code c - 48).

Fixpoint digits_val (acc : Z) (ds : string) : Z :=
  match ds with
  | EmptyString => acc
  | String c r => digits_val (10 * acc + digit_val c) r
  end.

(** integer part: [0] or a non-empty digit run without a leading zero *)
Definition lex_int (s : string) : option (string * string) :=
  match s with
  | String c r =>
      if Ascii.eqb c "0" then Some ("0", r)
      else if is_digit c then Some (span_digits s)
      else None
  | EmptyString => None
  end.

(** optional fraction: a dot followed by at least one digit *)
Definition lex_frac (s : string) : option (string * string) :=
  match s with
  | String "." r =>
      match span_digits r with
      | (EmptyString, _) => None
      | (ds, rest) => Some (ds, rest)
      end
  | _ => Some (EmptyString, s)
  end.

(** optional exponent: [e] or [E], an optional sign, at least one digit *)
Definition lex_exp (s : string) : option (Z * string) :=
  match s with
  | String c r =>
      if Ascii.eqb c "e" || Ascii.eqb c "E" then
        let '(neg, r1) :=
          match r with
          | String "-" r' => (true, r')
          | String "+" r' => (false, r')
          | _ => (false, r)
          end in
        match span_digits r1 with
        | (EmptyString, _) => None
        | (ds, rest) =>
            Some (if neg then - digits_val 0 ds else digits_val 0 ds, rest)
        end
      else Some (0, s)
  | EmptyString => Some (0, s)
  end.

(** the value [m * 10^e], in lowest terms *)
Definition decimal (m e : Z) : Q :=
  Qred (inject_Z m * Qpower (inject_Z 10) e).

Definition lex_number (s : string) : option (Q * string) :=
  let '(neg, s0) :=
    match s with String "-" r => (true, r) | _ => (false, s) end in
  '(ip, s1) ← lex_int s0;
  '(fp, s2) ← lex_frac s1;
  '(ex, s3) ← lex_exp s2;
  let m := digits_val 0 (ip +:+ fp) in
  Some (decimal (if neg then - m else m) (ex - Z.of_nat (String.length fp)),
        s3).

Definition hex_val (c : ascii) : option N :=
  let n := code c in
  if is_digit c then Some (n - 48)%N
  else if ((97 <=? n) && (n <=? 102))%N then Some (n - 87)%N
  else if ((65 <=? n) && (n <=? 70))%N then Some (n - 55)%N
  else None.

(** the code unit of a [\uXXXX] escape; a unit above 255 has no place in
    [string] and is kept as its three UTF-8 bytes *)
Definition unit_string (n : N) : string :=
  if (n <? 256)%N then String (ascii_of_N n) EmptyString
  else String (ascii_of_N (224 + n / 4096))
         (String (ascii_of_N (128 + (n / 64) mod 64))
            (String (ascii_of_N (128 + n mod 64)) EmptyString)).

Definition simple_escape (e : ascii) : option ascii :=
  if Ascii.eqb e dquote then Some dquote
  else if Ascii.eqb e backslash then Some backslash
  else if Ascii.eqb e "/" then Some "/"%char
  else if Ascii.eqb e "b" then Some "008"%char
  else if Ascii.eqb e "f" then Some "012"%char
  else if Ascii.eqb e "n" then Some "010"%char
  else if Ascii.eqb e "r" then Some "013"%char
  else if Ascii.eqb e "t" then Some "009"%char
  else None.

(** the characters of a string literal after its opening quote, up to
    and including the closing quote *)
Fixpoint lex_string (s : string) : option (string * string) :=
  match s with
  | EmptyString => None
  | String c r =>
      if Ascii.eqb c dquote then Some (EmptyString, r)
      else if Ascii.eqb c backslash then
        match r with
        | String e r1 =>
            match simple_escape e with
            | Some ch =>
                '(body, rest) ← lex_string r1; Some (String ch body, rest)
            | None =>
                if Ascii.eqb e "u" then
                  match r1 with
                  | String h1 (String h2 (String h3 (String h4 r2))) =>
                      a ← hex_val h1; b ← hex_val h2;
                      c' ← hex_val h3; d ← hex_val h4;
                      '(body, rest) ← lex_string r2;
                      Some (unit_string (((a * 16 + b) * 16 + c') * 16 + d)%N
                              +:+ body, rest)
                  | _ => None
                  end
                else None
            end
        | EmptyString => None
        end
      else if (code c <? 32)%N then None
      else '(body, rest) ← lex_string r; Some (String c body, rest)
  end.

Fixpoint parse_value (fuel : nat) (s : string) {struct fuel}
  : option (JsValue * string) :=
  match fuel with
  | O => None
  | S n =>
      match skip_ws s with
      | EmptyString => None
      | String c r =>
          if Ascii.eqb c "{" then
            match skip_ws r with
            | String "}" r' => Some (JObj [], r')
            | _ => '(fs, rest) ← parse_members n r; Some (JObj fs, rest)
            end
          else if Ascii.eqb c "[" then
            match skip_ws r with
            | String "]" r' => Some (JArr [], r')
            | _ => '(vs, rest) ← parse_elements n r; Some (JArr vs, rest)
            end
          else if Ascii.eqb c dquote then
            '(str, rest) ← lex_string r; Some (JStr str, rest)
          else if startsWith "true" (String c r) then
            Some (JBool true, slice_from 4 (String c r))
          else if startsWith "false" (String c r) then
            Some (JBool false, slice_from 5 (String c r))
          else if startsWith "null" (String c r) then
            Some (JNull, slice_from 4 (String c r))
          else
            '(q, rest) ← lex_number (String c r); Some (JNum q, rest)
      end
  end
with parse_elements (fuel : nat) (s : string) {struct fuel}
  : option (list JsValue * string) :=
  match fuel with
  | O => None
  | S n =>
      '(v, s1) ← parse_value n s;
      match skip_ws s1 with
      | String "," r => '(vs, rest) ← parse_elements n r; Some (v :: vs, rest)
      | String "]" r => Some ([v], r)
      | _ => None
      end
  end
with parse_members (fuel : nat) (s : string) {struct fuel}
  : option (list (string * JsValue) * string) :=
  match fuel with
  | O => None
  | S n =>
      match skip_ws s with
      | String c r =>
          if Ascii.eqb c dquote then
            '(k, s1) ← lex_string r;
            match skip_ws s1 with
            | String ":" s2 =>
                '(v, s3) ← parse_value n s2;
                match skip_ws s3 with
                | String "," r' =>
                    '(fs, rest) ← parse_members n r';
                    Some ((k, v) :: fs, rest)
                | String "}" r' => Some ([(k, v)], r')
                | _ => None
                end
            | _ => None
            end
          else None
      | EmptyString => None
      end
  end.

(** a repeated member name keeps the first position and the last value *)
Fixpoint normalize (v : JsValue) : JsValue :=
  match v with
  | JArr items => JArr (map normalize items)
  | JObj fields =>
      JObj (fold_left (fun o kv => obj_set kv.1 (normalize kv.2) o) fields [])
  | _ => v
  end.

(** [JSON.parse(text)]; [None] is the thrown [SyntaxError] *)
Definition parse (text : string) : option JsValue :=
  '(v, rest) ← parse_value (2 * String.length text + 2) text;
  match skip_ws rest with
  | EmptyString => Some (normalize v)
  | _ => None
  end.

End JSON.

Arguments JSON.parse : simpl never.

(** ** Configuration types ([src/config/types.ts]) *)

(** [FlexibleConfig], [HeaderConfig], [EnvConfig], [DefaultConfig] and
    [ResolvedConfig] are all objects used as maps from a key to any
    value; a [FlexibleConfig] is the map of the own properties of such an
    object. *)
Abbreviation FlexibleConfig := (gmap string JsValue).

(** ['header' | 'env' | 'default']: the request, the deployment and the
    fallback source *)
Inductive SourceTag : Type := SrcHeader | SrcEnv | SrcDefault.

Abbreviation ConfigSource := (gmap string SourceTag).

Record ConfigValidationResult : Type := {
  isValid : bool;
  errors : list string;
  warnings : list string
}.

(** What an assignment to [__proto__] can install as the prototype of
    an object: nothing (the prototype stays [Object.prototype], as for
    every object literal), [null], or an object or an array that
    [JSON.parse] built, whose own prototype is [Object.prototype] or
    [Array.prototype]. *)
Inductive Prototype : Type :=
| ObjectPrototype
| NullPrototype
| ObjectValue (fields : list (string * JsValue))
| ArrayValue (items : list JsValue).

(** An object: its own properties and its prototype. *)
Record JsObject : Type := {
  own : FlexibleConfig;
  proto : Prototype
}.

(** the object literal with these properties *)
Definition plain (config : FlexibleConfig) : JsObject :=
  {| own := config; proto := ObjectPrototype |}.

Record RawConfigs : Type := {
  raw_headers : JsObject;
  raw_env : JsObject;
  raw_defaults : JsObject
}.

Record ConfigResolutionContext : Type := {
  resolved : JsObject;
  sources : ConfigSource;
  validation : ConfigValidationResult;
  raw : RawConfigs
}.

(** [config[key]] on an object literal, for a [key] that names no member
    of [Object.prototype]: [undefined] when the property is absent *)
Definition get (config : FlexibleConfig) (key : string) : JsValue :=
  default JUndefined (config !! key).

(** the member [key] of a parsed object *)
Fixpoint obj_lookup (key : string) (fields : list (string * JsValue))
  : option JsValue :=
  match fields with
  | [] => None
  | (k, v) :: rest => if String.eqb key k then Some v else obj_lookup key rest
  end.

(** The data property [key] that an object inherits from an installed
    prototype, for a [key] that is neither an array index nor [length]
    and names no member of [Array.prototype]. *)
Definition proto_field (p : Prototype) (key : string) : option JsValue :=
  match p with
  | ObjectValue fields => obj_lookup key fields
  | _ => None
  end.

(** the prototype chain ends in [Object.prototype] *)
Definition reaches_Object_prototype (p : Prototype) : bool :=
  match p with
  | NullPrototype => false
  | _ => true
  end.

(** [o[key]], read through the prototype chain, for a [key] that names no
    member of [Object.prototype] or [Array.prototype] unless it is an own
    property: the resolver reads [to-use], [defaultTools],
    [availableTools], and keys for which [hasOwnProperty] holds. *)
Definition obj_read (o : JsObject) (key : string) : JsValue :=
  match own o !! key with
  | Some v => v
  | None => default JUndefined (proto_field (proto o) key)
  end.

(** [o[key] = v]. The key [__proto__] reaches the accessor of
    [Object.prototype] unless a data property of that name, own or on the
    installed prototype, or a [null] prototype stands before it; the
    accessor installs an object, an array or [null] as the prototype and
    ignores every other value. Any other assignment writes an own
    property. *)
Definition obj_assign (key : string) (v : JsValue) (o : JsObject) : JsObject :=
  if String.eqb key "__proto__"
     && negb (bool_decide (is_Some (own o !! "__proto__")))
     && negb (bool_decide (is_Some (proto_field (proto o) "__proto__")))
     && reaches_Object_prototype (proto o)
  then
    match v with
    | JObj fields => {| own := own o; proto := ObjectValue fields |}
    | JArr items => {| own := own o; proto := ArrayValue items |}
    | JNull => {| own := own o; proto := NullPrototype |}
    | _ => o
    end
  else {| own := <[key := v]> (own o); proto := proto o |}.

(** [o.hasOwnProperty] is still the method of [Object.prototype]: no
    property of that name, own or inherited from an installed prototype,
    stands before it (such a property holds a value that is not a
    function), and the chain ends in [Object.prototype]. *)
Definition hasOwnProperty_method (o : JsObject) : bool :=
  negb (bool_decide (is_Some (own o !! "hasOwnProperty")))
  && negb (bool_decide (is_Some (proto_field (proto o) "hasOwnProperty")))
  && reaches_Object_prototype (proto o).

(** [o.hasOwnProperty(key)]; [None] when the call throws [TypeError]
    because [o.hasOwnProperty] is not a function *)
Definition hasOwnProperty (o : JsObject) (key : string) : option bool :=
  if hasOwnProperty_method o
  then Some (bool_decide (is_Some (own o !! key)))
  else None.

(** truthiness of a value in a condition *)
Definition truthy (v : JsValue) : bool :=
  match v with
  | JUndefined | JNull => false
  | JBool b => b
  | JNum q => negb (Qeq_bool q 0)
  | JStr s => negb (String.eqb s "")
  | JArr _ | JObj _ => true
  end.

(** ** Default configuration ([src/config/defaults.ts]) *)

Definition defaultConfig : FlexibleConfig :=
  list_to_map
    [ ("clientUrl", JStr "http://localhost:8000");
      ("clientDb", JStr "development");
      ("clientUser", JStr "dev_user");
      ("availableTools",
        JArr [JStr "add"; JStr "calculate"; JStr "health_check"]);
      ("timeout", JNum (inject_Z 30000));
      ("retries", JNum (inject_Z 3));
      ("debug", JBool false) ].

Definition getDefaultConfig : FlexibleConfig := defaultConfig.

(** ** The resolver ([src/config/resolver.ts]) *)

(** [str.replace(/SEP([a-z])/g, (_, letter) => letter.toUpperCase())] *)
Fixpoint replace_sep_letter (sep : ascii) (str : string) : string :=
  match str with
  | EmptyString => EmptyString
  | String c rest =>
      if Ascii.eqb c sep then
        match rest with
        | String letter rest' =>
            if is_lower letter
            then String (toUpperCase_az letter) (replace_sep_letter sep rest')
            else String c (replace_sep_letter sep rest)
        | EmptyString => String c EmptyString
        end
      else String c (replace_sep_letter sep rest)
  end.

Definition kebabToCamelCase (str : string) : string :=
  replace_sep_letter "-" str.

Definition upperCaseToCamelCase (str : string) : string :=
  replace_sep_letter "_" (toLowerCase str).

(** [/^\d+(\.\d+)?$/] *)
Definition matches_numeral (value : string) : bool :=
  match JSON.span_digits value with
  | (EmptyString, _) => false
  | (String _ _, EmptyString) => true
  | (String _ _, String c r) =>
      Ascii.eqb c "." &&
      match JSON.span_digits r with
      | (String _ _, EmptyString) => true
      | _ => false
      end
  end.

(** the guard of [tryParseValue]: the value "looks like a simple string" *)
Definition looks_simple (value : string) : bool :=
  negb (startsWith "{" value) && negb (startsWith "[" value)
  && negb (startsWith (String dquote EmptyString) value)
  && negb (String.eqb value "true") && negb (String.eqb value "false")
  && negb (matches_numeral value).

Definition tryParseValue (value : string) : JsValue :=
  if looks_simple value then JStr value
  else
    match JSON.parse value with
    | Some v => v
    | None => JStr value
    end.

(** The entries yielded by [headers.entries()]: lower-cased names with
    their values. *)
Abbreviation Headers := (list (string * string)).

(** one turn of the loop of [extractHeaderConfig] *)
Definition headerStep (config : JsObject) (entry : string * string)
  : JsObject :=
  let '(key, value) := entry in
  let camelKey := kebabToCamelCase key in
  if String.eqb key "to-use" then
    match JSON.parse value with
    | Some v => obj_assign "to-use" v config
    | None => obj_assign "to-use" (JArr []) config
    end
  else obj_assign camelKey (tryParseValue value) config.

Definition extractHeaderConfig (headers : Headers) : JsObject :=
  fold_left headerStep headers (plain ∅).

(** [value.split(sep)] for a one-character separator *)
Fixpoint split (sep : ascii) (value : string) : list string :=
  match value with
  | EmptyString => [EmptyString]
  | String c r =>
      if Ascii.eqb c sep then EmptyString :: split sep r
      else
        match split sep r with
        | x :: xs => String c x :: xs
        | [] => [String c EmptyString]
        end
  end.

Fixpoint trimStart (s : string) : string :=
  match s with
  | String c r => if is_trim_ws c then trimStart r else s
  | EmptyString => s
  end.

Definition trim (s : string) : string :=
  String.rev (trimStart (String.rev (trimStart s))).

(** [Object.entries(env)] *)
Definition Object_entries (env : JsValue) : list (string * JsValue) :=
  match env with
  | JObj fields => fields
  | JArr items => imap (fun i v => (pretty i, v)) items
  | _ => []
  end.

(** [typeof env === 'object'] *)
Definition typeof_object (env : JsValue) : bool :=
  match env with
  | JNull | JArr _ | JObj _ => true
  | _ => false
  end.

(** One turn of the loop of [extractEnvConfig]. The object stays an
    object literal: [upperCaseToCamelCase] never yields the key
    [__proto__] (lemma [upperCaseToCamelCase_not_proto]), so that every
    assignment writes an own property. *)
Definition envStep (config : FlexibleConfig) (entry : string * JsValue)
  : FlexibleConfig :=
  let '(key, v) := entry in
  match v with
  | JStr value =>
      let camelKey := upperCaseToCamelCase key in
      if String.eqb key "DEFAULT_TOOLS" || endsWith "_TOOLS" key then
        match JSON.parse value with
        | Some parsed => <[camelKey := parsed]> config
        | None =>
            <[camelKey := JArr ((fun s => JStr (trim s)) <$> split "," value)]>
              config
        end
      else <[camelKey := tryParseValue value]> config
  | _ => config
  end.

Definition extractEnvConfig (env : JsValue) : FlexibleConfig :=
  if negb (truthy env) || negb (typeof_object env) then ∅
  else fold_left envStep (Object_entries env) ∅.

Definition resolveToolFiltering
    (headerConfig envConfig defaultConfig : JsObject) : JsValue :=
  if truthy (obj_read headerConfig "to-use")
     && isArray (obj_read headerConfig "to-use")
  then obj_read headerConfig "to-use"
  else if truthy (obj_read envConfig "defaultTools")
          && isArray (obj_read envConfig "defaultTools")
  then obj_read envConfig "defaultTools"
  else if truthy (obj_read envConfig "availableTools")
          && isArray (obj_read envConfig "availableTools")
  then obj_read envConfig "availableTools"
  else if truthy (obj_read defaultConfig "availableTools")
          && isArray (obj_read defaultConfig "availableTools")
  then obj_read defaultConfig "availableTools"
  else JArr [].

Definition getToolFilteringSource
    (headerConfig envConfig defaultConfig : JsObject) : SourceTag :=
  if truthy (obj_read headerConfig "to-use")
     && isArray (obj_read headerConfig "to-use")
  then SrcHeader
  else if (truthy (obj_read envConfig "defaultTools")
           && isArray (obj_read envConfig "defaultTools"))
          || (truthy (obj_read envConfig "availableTools")
              && isArray (obj_read envConfig "availableTools"))
  then SrcEnv
  else SrcDefault.

(** [sources[key] = tag] on the object literal [sources]: the tag is a
    string, which the accessor [__proto__] ignores *)
Definition src_assign (key : string) (tag : SourceTag) (sources : ConfigSource)
  : ConfigSource :=
  if String.eqb key "__proto__" then sources else <[key := tag]> sources.

(** One turn of the loop over [allKeys]; [None] when a call of
    [hasOwnProperty] throws. The second and the third call are made only
    when the tests before them fail. *)
Definition resolveKey (headerConfig envConfig defaultConfig : JsObject)
    (acc : JsObject * ConfigSource) (key : string)
  : option (JsObject * ConfigSource) :=
  let '(resolved, sources) := acc in
  inHeader ← hasOwnProperty headerConfig key;
  if inHeader && is_defined (obj_read headerConfig key) then
    Some (obj_assign key (obj_read headerConfig key) resolved,
          src_assign key SrcHeader sources)
  else
    inEnv ← hasOwnProperty envConfig key;
    if inEnv && is_defined (obj_read envConfig key) then
      Some (obj_assign key (obj_read envConfig key) resolved,
            src_assign key SrcEnv sources)
    else
      inDefault ← hasOwnProperty defaultConfig key;
      if inDefault && is_defined (obj_read defaultConfig key) then
        Some (obj_assign key (obj_read defaultConfig key) resolved,
              src_assign key SrcDefault sources)
      else Some (resolved, sources).

(** the loop over [allKeys] *)
Fixpoint resolveKeys (headerConfig envConfig defaultConfig : JsObject)
    (keys : list string) (acc : JsObject * ConfigSource)
  : option (JsObject * ConfigSource) :=
  match keys with
  | [] => Some acc
  | key :: rest =>
      acc' ← resolveKey headerConfig envConfig defaultConfig acc key;
      resolveKeys headerConfig envConfig defaultConfig rest acc'
  end.

(** [value.length === 0] *)
Definition length_is_zero (v : JsValue) : bool :=
  match v with
  | JArr [] => true
  | JStr EmptyString => true
  | _ => false
  end.

Definition no_tools_warning : string :=
  "No tools available - consider setting availableTools or to-use header".

(** The body of [resolveConfig] once the three sources are extracted;
    [None] when the loop throws. *)
Definition resolveSources
    (headerConfig envConfig defaultConfig : JsObject)
  : option ConfigResolutionContext :=
  let allKeys : gset string :=
    dom (own defaultConfig) ∪ dom (own envConfig) ∪ dom (own headerConfig) in
  '(resolved, sources) ←
    resolveKeys headerConfig envConfig defaultConfig (elements allKeys)
      (plain {["availableTools" := JArr []]}, ∅);
  let resolved :=
    obj_assign "availableTools"
      (resolveToolFiltering headerConfig envConfig defaultConfig) resolved in
  let sources :=
    src_assign "availableTools"
      (getToolFilteringSource headerConfig envConfig defaultConfig) sources in
  let warnings :=
    if negb (truthy (obj_read resolved "availableTools"))
       || length_is_zero (obj_read resolved "availableTools")
    then [no_tools_warning] else [] in
  Some {| resolved := resolved;
          sources := sources;
          validation :=
            {| isValid := true; errors := []; warnings := warnings |};
          raw := {| raw_headers := headerConfig;
                    raw_env := envConfig;
                    raw_defaults := defaultConfig |} |}.

(** [extractEnvConfig] and [getDefaultConfig] return object literals. *)
Definition resolveConfig (headers : Headers) (env : JsValue)
  : option ConfigResolutionContext :=
  resolveSources (extractHeaderConfig headers) (plain (extractEnvConfig env))
    (plain getDefaultConfig).

(** ** Tool types ([src/tools/types.ts]) *)

Record MCPToolMetadata : Type := {
  category : option string;
  tags : option (list string);
  version : option string;
  author : option string;
  requiresAuth : option bool;
  cacheable : option bool;
  estimatedDuration : option Q
}.

(** A tool. Its [schema] and [handler] are never inspected by the
    registry and are left out. *)
Record MCPTool : Type := {
  name : string;
  description : string;
  metadata : option MCPToolMetadata
}.

(** A [ResolvedConfig] as the filter receives it: [availableTools] is an
    array of tool names, next to any other keys. *)
Record ResolvedConfig : Type := {
  availableTools : list string;
  settings : FlexibleConfig
}.

(** [(config as any)[field]] *)
Definition config_get (config : ResolvedConfig) (field : string) : JsValue :=
  if String.eqb field "availableTools"
  then JArr (JStr <$> availableTools config)
  else get (settings config) field.

(** The typed view of a resolved map: its [availableTools] is an array of
    strings. *)
Definition as_string (v : JsValue) : option string :=
  match v with JStr s => Some s | _ => None end.

Definition typed_config (resolved : FlexibleConfig) : option ResolvedConfig :=
  match resolved !! "availableTools" with
  | Some (JArr items) =>
      names ← mapM as_string items;
      Some {| availableTools := names;
              settings := delete "availableTools" resolved |}
  | _ => None
  end.

(** [condition.value]: an expected value ([undefined] when absent) or a
    validation function. A caller-supplied function is taken to return a
    boolean. *)
Inductive ConditionValue : Type :=
| ValueFunction (f : JsValue → bool)
| ValueExpected (v : JsValue).

Record ToolCondition : Type := {
  type : string;
  field : option string;
  value : ConditionValue;
  validator : option (ResolvedConfig → bool)
}.

(** [Omit<ToolRegistration, 'tool'>] *)
Record RegistrationOptions : Type := {
  opt_enabledByDefault : option bool;
  opt_conditions : option (list ToolCondition)
}.

(** [{}] *)
Definition no_registration_options : RegistrationOptions :=
  {| opt_enabledByDefault := None; opt_conditions := None |}.

Record ToolRegistration : Type := {
  tool : MCPTool;
  enabledByDefault : option bool;
  conditions : option (list ToolCondition)
}.

(** The registry: [tools] is a [Map] in insertion order, [filteredCache]
    a [Map] whose order is never observed. *)
Record ToolRegistry : Type := {
  tools : list (string * ToolRegistration);
  filteredCache : gmap string (list MCPTool)
}.

Record ToolFilterOptions : Type := {
  include : option (list string);
  exclude : option (list string);
  categories : option (list string);
  requiredTags : option (list string);
  includeAuthRequired : option bool;
  config : option ResolvedConfig
}.

(** [{}] *)
Definition no_filter_options : ToolFilterOptions :=
  {| include := None; exclude := None; categories := None;
     requiredTags := None; includeAuthRequired := None; config := None |}.

Module Exclusion.
Record t : Type := { tool : string; reason : string }.
End Exclusion.

Module Summary.
Record t : Type := { total : Z; included : Z; excluded : Z }.
End Summary.

Module Result.
Record t : Type := {
  tools : list MCPTool;
  excluded : list Exclusion.t;
  summary : Summary.t
}.
End Result.

Abbreviation ToolFilterResult := Result.t.

(** ** The registry ([src/tools/registry.ts]) *)

(** [map.get(key)] *)
Fixpoint Map_get {V : Type} (key : string) (m : list (string * V))
  : option V :=
  match m with
  | [] => None
  | (k, v) :: m' => if String.eqb key k then Some v else Map_get key m'
  end.

(** [map.set(key, v)]: an existing key keeps its place in the order *)
Fixpoint Map_set {V : Type} (key : string) (v : V) (m : list (string * V))
  : list (string * V) :=
  match m with
  | [] => [(key, v)]
  | (k, v') :: m' =>
      if String.eqb key k then (key, v) :: m' else (k, v') :: Map_set key v m'
  end.

(** the initial [toolRegistry] *)
Definition toolRegistry : ToolRegistry :=
  {| tools := []; filteredCache := ∅ |}.

Definition registerTool (registry : ToolRegistry) (tool : MCPTool)
    (options : RegistrationOptions) : ToolRegistry :=
  let registration :=
    {| tool := tool;
       enabledByDefault := Some (default true (opt_enabledByDefault options));
       conditions := Some (default [] (opt_conditions options)) |} in
  {| tools := Map_set (name tool) registration (tools registry);
     filteredCache := ∅ |}.

Definition registerTools (registry : ToolRegistry) (tools : list MCPTool)
  : ToolRegistry :=
  fold_left (fun registry tool => registerTool registry tool
                                    no_registration_options)
    tools registry.

Definition getAllTools (registry : ToolRegistry) : list MCPTool :=
  (fun reg => tool reg.2) <$> tools registry.

Definition getTool (registry : ToolRegistry) (name : string)
  : option MCPTool :=
  tool <$> Map_get name (tools registry).

Definition isToolRegistered (registry : ToolRegistry) (name : string) : bool :=
  bool_decide (is_Some (Map_get name (tools registry))).

Definition clearRegistry (registry : ToolRegistry) : ToolRegistry :=
  {| tools := []; filteredCache := ∅ |}.

(** [a === b]: primitives by value; two arrays or objects are distinct
    references *)
Definition strict_eq (a b : JsValue) : bool :=
  match a, b with
  | JUndefined, JUndefined => true
  | JNull, JNull => true
  | JBool x, JBool y => Bool.eqb x y
  | JNum x, JNum y => Qeq_bool x y
  | JStr x, JStr y => String.eqb x y
  | _, _ => false
  end.

Definition evaluateCondition (condition : ToolCondition)
    (config : ResolvedConfig) : bool :=
  if String.eqb (type condition) "config" then
    match field condition with
    | None => false
    | Some EmptyString => false
    | Some fieldName =>
        let configValue := config_get config fieldName in
        match value condition with
        | ValueFunction f => f configValue
        | ValueExpected v => strict_eq configValue v
        end
    end
  else if String.eqb (type condition) "environment" then true
  else if String.eqb (type condition) "custom" then
    match validator condition with
    | Some f => f config
    | None => true
    end
  else false.

(** [true | string]: the tool is included, or the reason it is not *)
Inductive IncludeReason : Type :=
| IsTrue
| Reason (reason : string).

(** [list.includes(x)] *)
Definition includes (l : list string) (x : string) : bool :=
  bool_decide (x ∈ l).

(** the first condition that is not met *)
Fixpoint first_unmet (conds : list ToolCondition) (config : ResolvedConfig)
  : option ToolCondition :=
  match conds with
  | [] => None
  | condition :: rest =>
      if negb (evaluateCondition condition config) then Some condition
      else first_unmet rest config
  end.

Definition shouldIncludeTool (tool : MCPTool) (registration : ToolRegistration)
    (config : ResolvedConfig) (options : ToolFilterOptions) : IncludeReason :=
  if negb (default false (enabledByDefault registration)) then
    Reason "Tool is disabled by default"
  else if match include options with
          | Some l => negb (includes l (name tool))
          | None => false
          end then
    Reason "Not in include list"
  else if match exclude options with
          | Some l => includes l (name tool)
          | None => false
          end then
    Reason "In exclude list"
  else if match categories options with
          | Some l =>
              match metadata tool ≫= category with
              | None => true
              | Some EmptyString => true
              | Some toolCategory => negb (includes l toolCategory)
              end
          | None => false
          end then
    Reason "Category not in allowed list"
  else if match requiredTags options with
          | Some ((_ :: _) as required) =>
              let toolTags := default [] (metadata tool ≫= tags) in
              negb (forallb (includes toolTags) required)
          | _ => false
          end then
    Reason "Missing required tags"
  else if default false (metadata tool ≫= requiresAuth)
          && match includeAuthRequired options with
             | Some false => true
             | _ => false
             end then
    Reason "Tool requires authentication but auth tools are excluded"
  else
    match first_unmet (default [] (conditions registration)) config with
    | Some condition => Reason ("Condition not met: " +:+ type condition)
    | None => IsTrue
    end.

(** [list.join(sep)] on strings *)
Definition join (sep : string) (l : list string) : string :=
  String.concat sep l.

Definition createFilterCacheKey (config : ResolvedConfig)
    (options : ToolFilterOptions) : string :=
  let keyParts :=
    [ join "," (availableTools config);
      match include options with Some l => join "," l | None => "" end;
      match exclude options with Some l => join "," l | None => "" end;
      match categories options with Some l => join "," l | None => "" end;
      match requiredTags options with Some l => join "," l | None => "" end;
      match includeAuthRequired options with
      | Some true => "true"
      | Some false => "false"
      | None => "undefined"
      end ] in
  join "|" keyParts.

Definition createFilterResult (cached : list MCPTool)
    (registry : ToolRegistry) : ToolFilterResult :=
  let total := Z.of_nat (length (tools registry)) in
  let included := Z.of_nat (length cached) in
  let excluded := total - included in
  {| Result.tools := cached;
     Result.excluded := [];
     Result.summary := {| Summary.total := total;
                          Summary.included := included;
                          Summary.excluded := excluded |} |}.

(** one turn of the loop over [allRegistrations] *)
Definition filterStep (config : ResolvedConfig) (options : ToolFilterOptions)
    (acc : list MCPTool * list Exclusion.t) (registration : ToolRegistration)
  : list MCPTool * list Exclusion.t :=
  let '(includedTools, excluded) := acc in
  let tool := tool registration in
  match shouldIncludeTool tool registration config options with
  | IsTrue => (includedTools ++ [tool], excluded)
  | Reason includeReason =>
      (includedTools,
       excluded ++ [{| Exclusion.tool := name tool;
                       Exclusion.reason := includeReason |}])
  end.

Definition not_requested (tool : MCPTool) : Exclusion.t :=
  {| Exclusion.tool := name tool;
     Exclusion.reason := "Not in requested tools list" |}.

(** [filterTools] returns its result and leaves the registry with the
    result cached. *)
Definition filterTools (registry : ToolRegistry) (config : ResolvedConfig)
    (options : ToolFilterOptions) : ToolFilterResult * ToolRegistry :=
  let cacheKey := createFilterCacheKey config options in
  match filteredCache registry !! cacheKey with
  | Some cached => (createFilterResult cached registry, registry)
  | None =>
      let allRegistrations := snd <$> tools registry in
      let '(includedTools, excluded) :=
        fold_left (filterStep config options) allRegistrations ([], []) in
      let '(finalTools, excluded) :=
        match availableTools config with
        | _ :: _ =>
            let requestedTools : gset string :=
              list_to_set (availableTools config) in
            (filter (fun tool => name tool ∈ requestedTools) includedTools,
             excluded ++
               (not_requested <$>
                  filter (fun tool => name tool ∉ requestedTools)
                    includedTools))
        | [] => (includedTools, excluded)
        end in
      ({| Result.tools := finalTools;
          Result.excluded := excluded;
          Result.summary :=
            {| Summary.total := Z.of_nat (length allRegistrations);
               Summary.included := Z.of_nat (length finalTools);
               Summary.excluded := Z.of_nat (length excluded) |} |},
       {| tools := tools registry;
          filteredCache := <[cacheKey := finalTools]> (filteredCache registry) |})
  end.

Definition getRegistryStats (registry : ToolRegistry)
  : Z * Z * list string :=
  (Z.of_nat (length (tools registry)),
   Z.of_nat (size (filteredCache registry)),
   fst <$> tools registry).

(** ** Definitions used to state the properties *)

(** Test inputs are written with single quotes for the JSON quotes. *)
Fixpoint dq (s : string) : string :=
  match s with
  | EmptyString => EmptyString
  | String c r => String (if Ascii.eqb c "'" then dquote else c) (dq r)
  end.

(** The value a source defines for a key: the key is an own property
    and its value is not [undefined]. *)
Definition defined_in (config : FlexibleConfig) (key : string)
  : option JsValue :=
  match config !! key with
  | Some v => if is_defined v then Some v else None
  | None => None
  end.

(** The three sources still have the method of [Object.prototype] that
    the resolver calls on them. *)
Definition methods_intact (headerConfig envConfig defaultConfig : JsObject)
  : Prop :=
  hasOwnProperty_method headerConfig = true
  ∧ hasOwnProperty_method envConfig = true
  ∧ hasOwnProperty_method defaultConfig = true.

(** The outcome of strict precedence for one key, in the words of the
    specification: request, else deployment, else fallback. *)
Definition precedence_spec
    (headerConfig envConfig defaultConfig : FlexibleConfig) (key : string)
  : option (JsValue * SourceTag) :=
  match defined_in headerConfig key with
  | Some v => Some (v, SrcHeader)
  | None =>
      match defined_in envConfig key with
      | Some v => Some (v, SrcEnv)
      | None =>
          match defined_in defaultConfig key with
          | Some v => Some (v, SrcDefault)
          | None => None
          end
      end
  end.

(** The tool-list chain in the words of the specification: the first
    array found, and the branch that supplied it. *)
Definition as_array (v : option JsValue) : option (list JsValue) :=
  match v with
  | Some (JArr items) => Some items
  | _ => None
  end.

Definition toolListChain_spec
    (headerConfig envConfig defaultConfig : FlexibleConfig)
  : list JsValue * SourceTag :=
  match as_array (headerConfig !! "to-use") with
  | Some tools => (tools, SrcHeader)
  | None =>
      match as_array (envConfig !! "defaultTools") with
      | Some tools => (tools, SrcEnv)
      | None =>
          match as_array (envConfig !! "availableTools") with
          | Some tools => (tools, SrcEnv)
          | None =>
              match as_array (defaultConfig !! "availableTools") with
              | Some tools => (tools, SrcDefault)
              | None => ([], SrcDefault)
              end
          end
      end
  end.

(** some separator is followed by a lower-case letter *)
Fixpoint has_sep_letter (sep : ascii) (s : string) : bool :=
  match s with
  | String c ((String l _) as rest) =>
      (Ascii.eqb c sep && is_lower l) || has_sep_letter sep rest
  | _ => false
  end.

Definition head_not_lower (s : string) : Prop :=
  match s with
  | String c _ => is_lower c = false
  | EmptyString => True
  end.

(** *** Resolver inputs used in the examples *)

(** a request that sets [available-tools], over a deployment that sets
    [AVAILABLE_TOOLS] *)
Definition tools_headers : Headers := [("available-tools", dq "['x']")].
Definition tools_env : JsValue :=
  JObj [("AVAILABLE_TOOLS", JStr (dq "['y']"))].

(** a request and a deployment that both set the client URL *)
Definition url_headers : Headers := [("client-url", "http://request")].
Definition url_env : JsValue :=
  JObj [("CLIENT_URL", JStr "http://deployment"); ("CLIENT_DB", JStr "prod")].

(** the tool-list example of the specification *)
Definition to_use_headers : Headers := [("to-use", dq "['a']")].
Definition default_tools_env : JsValue :=
  JObj [("DEFAULT_TOOLS", JStr (dq "['b','c']"))].

(** a request with a header named [has-own-property], beside a tool
    list *)
Definition shadowing_headers : Headers :=
  [("has-own-property", "1"); ("to-use", dq "['a']")].

(** a request whose [__proto__] header carries a tool list, and no
    [to-use] header *)
Definition proto_headers : Headers :=
  [("__proto__", dq "{'to-use':['x']}")].

(** a request whose [to-use] header is not JSON, beside a header named
    [has-own-property] *)
Definition bad_to_use_shadowing_headers : Headers :=
  [("has-own-property", "1"); ("to-use", "add,calculate")].

(** a request whose [to-use] header is not JSON *)
Definition bad_to_use_headers : Headers :=
  [("client-url", "http://request"); ("to-use", "add,calculate")].

(** *** Coercion *)

(** the value begins with [{], [[] or a double quote *)
Definition begins_structured (value : string) : bool :=
  startsWith "{" value || startsWith "[" value
  || startsWith (String dquote EmptyString) value.

(** a numeral whose integer part is [0] or does not begin with [0] *)
Definition canonical_numeral (value : string) : bool :=
  match value with
  | String c (String d _) => negb (Ascii.eqb c "0" && is_digit d)
  | _ => true
  end.

(** the number a numeral [ds] or [ds.fs] denotes *)
Definition numeral_value (value : string) : Q :=
  let '(ds, rest) := JSON.span_digits value in
  let fs :=
    match rest with
    | String _ r => (JSON.span_digits r).1
    | EmptyString => EmptyString
    end in
  JSON.decimal (JSON.digits_val 0 (ds +:+ fs)) (- Z.of_nat (String.length fs)).

(** *** Registry and filter *)

(** [Array.from(toolRegistry.tools.values())] *)
Definition allRegistrations (registry : ToolRegistry)
  : list ToolRegistration :=
  snd <$> tools registry.

(** the generic checks include the registration *)
Definition is_included (config : ResolvedConfig) (options : ToolFilterOptions)
    (registration : ToolRegistration) : bool :=
  match shouldIncludeTool (tool registration) registration config options with
  | IsTrue => true
  | Reason _ => false
  end.

(** The registry-eligible tools: those passing the enabled-by-default,
    include/exclude, category, tag, auth and condition checks, in registry
    order. *)
Definition eligible (registry : ToolRegistry) (config : ResolvedConfig)
    (options : ToolFilterOptions) : list MCPTool :=
  tool <$> filter (fun r => is_included config options r)
             (allRegistrations registry).

(** the exclusion entry of a registration the generic checks reject *)
Definition generic_exclusion (config : ResolvedConfig)
    (options : ToolFilterOptions) (registration : ToolRegistration)
  : option Exclusion.t :=
  match shouldIncludeTool (tool registration) registration config options with
  | IsTrue => None
  | Reason includeReason =>
      Some {| Exclusion.tool := name (tool registration);
              Exclusion.reason := includeReason |}
  end.

Definition generic_exclusions (registry : ToolRegistry)
    (config : ResolvedConfig) (options : ToolFilterOptions)
  : list Exclusion.t :=
  omap (generic_exclusion config options) (allRegistrations registry).

(** the call is not answered from the cache *)
Definition cache_miss (registry : ToolRegistry) (config : ResolvedConfig)
    (options : ToolFilterOptions) : Prop :=
  filteredCache registry !! createFilterCacheKey config options = None.

(** What [registerTool] maintains: every key of the tool map is the name
    of the tool registered under it, and no key occurs twice. *)
Definition registry_ok (registry : ToolRegistry) : Prop :=
  NoDup (fst <$> tools registry)
  ∧ Forall (fun entry => entry.1 = name (tool entry.2)) (tools registry).

(** The registries the exported functions can produce from the initial
    one. *)
Inductive reachable : ToolRegistry → Prop :=
| reach_initial : reachable toolRegistry
| reach_registerTool registry tool options :
    reachable registry → reachable (registerTool registry tool options)
| reach_registerTools registry tools :
    reachable registry → reachable (registerTools registry tools)
| reach_clearRegistry registry :
    reachable registry → reachable (clearRegistry registry)
| reach_filterTools registry config options :
    reachable registry → reachable (filterTools registry config options).2.

(** the registration [registerTool] stores *)
Definition stored_registration (tool : MCPTool) (options : RegistrationOptions)
  : ToolRegistration :=
  {| tool := tool;
     enabledByDefault := Some (default true (opt_enabledByDefault options));
     conditions := Some (default [] (opt_conditions options)) |}.

(** further filter calls, each on the registry the previous one left *)
Definition filter_calls (registry : ToolRegistry)
    (calls : list (ResolvedConfig * ToolFilterOptions)) : ToolRegistry :=
  fold_left (fun registry call => (filterTools registry call.1 call.2).2)
    calls registry.

(** the names a filter result mentions: the included tools, then the
    excluded ones *)
Definition result_names (result : ToolFilterResult) : list string :=
  (name <$> Result.tools result)
  ++ (Exclusion.tool <$> Result.excluded result).

(** *** Registry inputs used in the examples *)

Definition plain_tool (n d : string) : MCPTool :=
  {| name := n; description := d; metadata := None |}.

Definition tool_a : MCPTool := plain_tool "a" "first tool".
Definition tool_b : MCPTool := plain_tool "b" "second tool".

(** two enabled tools [a] and [b] *)
Definition two_tools : ToolRegistry :=
  registerTools toolRegistry [tool_a; tool_b].

Definition only (names : list string) : ResolvedConfig :=
  {| availableTools := names; settings := ∅ |}.

(** [a] is available only when [debug] is [true] *)
Definition debug_is_true : ToolCondition :=
  {| type := "config"; field := Some "debug";
     value := ValueExpected (JBool true); validator := None |}.

Definition debug_only : ToolRegistry :=
  registerTool toolRegistry tool_a
    {| opt_enabledByDefault := None; opt_conditions := Some [debug_is_true] |}.

Definition debug_config (b : bool) : ResolvedConfig :=
  {| availableTools := []; settings := {["debug" := JBool b]} |}.

(** one tool enabled, one disabled by default *)
Definition a_enabled_b_disabled : ToolRegistry :=
  registerTool (registerTool toolRegistry tool_a no_registration_options)
    tool_b {| opt_enabledByDefault := Some false; opt_conditions := None |}.

(** the tools a request sees: resolve, then filter with no options *)
Definition request_tools (registry : ToolRegistry) (headers : Headers)
    (env : JsValue) : option (list string) :=
  ctx ← resolveConfig headers env;
  config ← typed_config (own (resolved ctx));
  Some (name <$> Result.tools (filterTools registry config
                                 no_filter_options).1).




(** ** Definitions used to state further properties *)

(** *** Key normalization *)

Definition is_upper (c : ascii) : bool :=
  ((65 <=? code c) && (code c <=? 90))%N.

(** no letter [A-Z] occurs: the header names [Headers] yields are in
    lower case *)
Fixpoint no_upper (s : string) : bool :=
  match s with
  | EmptyString => true
  | String c r => negb (is_upper c) && no_upper r
  end.

(** the hyphenated name a camel-case key comes from *)
Fixpoint camelToKebab (s : string) : string :=
  match s with
  | EmptyString => EmptyString
  | String c r =>
      if is_upper c
      then String "-" (String (ascii_of_N (code c + 32)) (camelToKebab r))
      else String c (camelToKebab r)
  end.

(** the key under which [extractHeaderConfig] stores a header *)
Definition header_key (name : string) : string :=
  if String.eqb name "to-use" then "to-use" else kebabToCamelCase name.

(** the value [extractHeaderConfig] stores for a header *)
Definition header_value (name value : string) : JsValue :=
  if String.eqb name "to-use" then default (JArr []) (JSON.parse value)
  else tryParseValue value.

(** the own property [extractHeaderConfig] writes for a header whose key
    is not [__proto__] *)
Definition store_header (config : FlexibleConfig) (entry : string * string)
  : FlexibleConfig :=
  <[header_key entry.1 := header_value entry.1 entry.2]> config.

(** A header list that installs no prototype and shadows no method: no
    header has the key [__proto__] or the key [hasOwnProperty]. *)
Definition ordinary_headers (headers : Headers) : Prop :=
  ("__proto__" ∉ header_key <$> headers.*1)
  ∧ ("hasOwnProperty" ∉ header_key <$> headers.*1).

(** The resolution of a request returns (lemma [resolveConfig_returns]):
    [hasOwnProperty] is still the method on the request source, and the
    deployment source has no property of that name. *)
Definition resolvable (headers : Headers) (env : JsValue) : Prop :=
  hasOwnProperty_method (extractHeaderConfig headers) = true
  ∧ extractEnvConfig env !! "hasOwnProperty" = None.

(** the value is not [undefined] *)
Definition all_defined (config : FlexibleConfig) : Prop :=
  ∀ k v, config !! k = Some v → is_defined v = true.

(** the value [extractEnvConfig] stores for a string variable *)
Definition env_value (name value : string) : JsValue :=
  if String.eqb name "DEFAULT_TOOLS" || endsWith "_TOOLS" name then
    default (JArr ((fun s => JStr (trim s)) <$> split "," value))
      (JSON.parse value)
  else tryParseValue value.


(** a deployment with one colliding pair of variables and a binding that
    is not a string *)
Definition colliding_env : list (string * JsValue) :=
  [("API_URL", JStr "http://first"); ("KV", JObj []);
   ("api_url", JStr "http://second")].

(** *** Registry *)

(** the tool replaces the one of the same name, where there is one *)
Definition replace_tool (tool : MCPTool) (other : MCPTool) : MCPTool :=
  if String.eqb (name other) (name tool) then tool else other.

(** the registration of the last tool of that name in the list, as
    [registerTools] stores it *)
Fixpoint last_registered (tools : list MCPTool) (n : string)
  : option ToolRegistration :=
  match tools with
  | [] => None
  | tool :: rest =>
      match last_registered rest n with
      | Some registration => Some registration
      | None =>
          if String.eqb n (name tool)
          then Some (stored_registration tool no_registration_options)
          else None
      end
  end.

(** Every cached list is a sub-list of the registered tools, in registry
    order. *)
Definition cache_ok (registry : ToolRegistry) : Prop :=
  ∀ key cached, filteredCache registry !! key = Some cached →
                sublist cached (getAllTools registry).

(** The generic checks of the filter, stated one by one. *)
Definition passes_filters (registration : ToolRegistration)
    (config : ResolvedConfig) (options : ToolFilterOptions) : Prop :=
  let tool := tool registration in
  enabledByDefault registration = Some true
  ∧ (∀ names, include options = Some names → name tool ∈ names)
  ∧ (∀ names, exclude options = Some names → name tool ∉ names)
  ∧ (∀ allowed, categories options = Some allowed →
       ∃ c, metadata tool ≫= category = Some c ∧ c ≠ "" ∧ c ∈ allowed)
  ∧ (∀ required, requiredTags options = Some required →
       ∀ tag, tag ∈ required → tag ∈ default [] (metadata tool ≫= tags))
  ∧ (includeAuthRequired options = Some false →
       metadata tool ≫= requiresAuth ≠ Some true)
  ∧ (∀ condition, condition ∈ default [] (conditions registration) →
       evaluateCondition condition config = true).

(** a tool of the [math] category that requires authentication *)
Definition secured_tool : MCPTool :=
  {| name := "secured"; description := "needs a login";
     metadata := Some {| category := Some "math"; tags := Some ["basic"];
                         version := None; author := None;
                         requiresAuth := Some true; cacheable := None;
                         estimatedDuration := None |} |}.

Definition three_tools : ToolRegistry :=
  registerTools toolRegistry [tool_a; secured_tool; tool_b].

Definition no_auth_options : ToolFilterOptions :=
  {| include := None; exclude := Some ["b"]; categories := None;
     requiredTags := None; includeAuthRequired := Some false;
     config := None |}.

(** ** The health check tool ([src/tools/examples/health-check.ts]) *)

(** [s.includes(word)] on strings *)
Fixpoint str_includes (word s : string) : bool :=
  startsWith word s
  || match s with
     | EmptyString => false
     | String _ rest => str_includes word rest
     end.

(** [o[k]] on the own properties of an object *)
Fixpoint obj_get (k : string) (o : list (string * JsValue)) : JsValue :=
  match o with
  | [] => JUndefined
  | (k', v) :: o' => if String.eqb k k' then v else obj_get k o'
  end.

(** [v.length]: the access throws on [undefined] and [null]; a number or
    a boolean has no such property *)
Definition length_of (v : JsValue) : option JsValue :=
  match v with
  | JUndefined | JNull => None
  | JBool _ | JNum _ => Some JUndefined
  | JStr s => Some (JNum (inject_Z (Z.of_nat (String.length s))))
  | JArr items => Some (JNum (inject_Z (Z.of_nat (length items))))
  | JObj fields => Some (obj_get "length" fields)
  end.

(** the test that decides whether the value of a key is shown *)
Definition is_sensitive (key : string) : bool :=
  str_includes "pass" (toLowerCase key)
  || str_includes "secret" (toLowerCase key)
  || str_includes "token" (toLowerCase key).

Definition redacted : JsValue := JStr "[REDACTED]".

(** one entry of the [Object.entries(config).map(...)] of the handler *)
Definition redact_entry (key : string) (value : JsValue) : JsValue :=
  if is_sensitive key then redacted else value.

(** [healthInfo.configuration] as the handler builds it when
    [includeConfig] is set: the configuration, then the tool count, then
    the redacted entries, each spread over what comes before. [None]
    when reading [config.availableTools.length] throws. *)
Definition health_configuration (config : FlexibleConfig)
  : option FlexibleConfig :=
  availableToolsCount ← length_of (get config "availableTools");
  Some (map_imap (fun key value => Some (redact_entry key value)) config
        ∪ <["availableToolsCount" := availableToolsCount]> config).

(** ** The example tools ([src/tools/examples]) and their registration at
    start-up ([src/index.ts]) *)

Definition addTool : MCPTool :=
  {| name := "add"; description := "Add two numbers together";
     metadata := Some {| category := Some "math";
                         tags := Some ["arithmetic"; "basic"];
                         version := Some "1.0.0";
                         author := Some "MCP Starter";
                         requiresAuth := None; cacheable := Some true;
                         estimatedDuration := Some (inject_Z 5) |} |}.

Definition calculateTool : MCPTool :=
  {| name := "calculate";
     description := "Perform arithmetic operations on two numbers";
     metadata := Some {| category := Some "math";
                         tags := Some ["arithmetic"; "calculator";
                                       "operations"];
                         version := Some "1.0.0";
                         author := Some "MCP Starter";
                         requiresAuth := None; cacheable := Some true;
                         estimatedDuration := Some (inject_Z 10) |} |}.

Definition healthCheckTool : MCPTool :=
  {| name := "health_check";
     description := "Check system health and configuration status";
     metadata := Some {| category := Some "system";
                         tags := Some ["health"; "diagnostics";
                                       "monitoring"];
                         version := Some "1.0.0";
                         author := Some "MCP Starter";
                         requiresAuth := Some false;
                         cacheable := Some false;
                         estimatedDuration := Some (inject_Z 50) |} |}.

Definition apiGetTool : MCPTool :=
  {| name := "api_get";
     description := "Make a GET request to any API endpoint";
     metadata := None |}.

Definition apiPostTool : MCPTool :=
  {| name := "api_post";
     description := "Make a POST request to any API endpoint";
     metadata := None |}.

Definition apiHealthTool : MCPTool :=
  {| name := "api_health";
     description := "Check if the API is healthy and reachable";
     metadata := None |}.

Definition apiTools : list MCPTool := [apiGetTool; apiPostTool; apiHealthTool].

Definition exampleTools : list MCPTool :=
  [addTool; calculateTool; healthCheckTool] ++ apiTools.

(** [MyMCP.init]: the example tools are registered in the global
    registry *)
Definition MyMCP_init (registry : ToolRegistry) : ToolRegistry :=
  registerTools registry exampleTools.

(** a request whose headers carry a credential *)
Definition credential_headers : Headers :=
  [("client-url", "http://request"); ("api-token", "s3cr3t")].

Definition credential_env : JsValue :=
  JObj [("DB_PASSWORD", JStr "hunter2"); ("REGION", JStr "eu")].


(** the summary of the first filter call of a fresh agent *)
Definition default_summary : Summary.t :=
  {| Summary.total := 6; Summary.included := 3; Summary.excluded := 3 |}.
(** ** Properties of the resolver *)

(** [is_Some] goals on a constructor *)
Ltac yes_some := by eexists.
Ltac no_some := by intros [? ?].

(** *** Assignment and reading *)

Lemma obj_assign_own_ne (key k : string) (v : JsValue) (o : JsObject) :
  k ≠ key → own (obj_assign key v o) !! k = own o !! k.
Proof.
  intros Hne. unfold obj_assign.
  destruct (_ && _ && _ && _); [by destruct v|].
  cbn [own]. by rewrite lookup_insert_ne.
Qed.

Lemma obj_assign_ordinary (key : string) (v : JsValue) (o : JsObject) :
  key ≠ "__proto__" →
  obj_assign key v o = {| own := <[key := v]> (own o); proto := proto o |}.
Proof.
  intros Hne. unfold obj_assign.
  by rewrite (proj2 (String.eqb_neq _ _) Hne).
Qed.

Lemma obj_assign_own_eq (key : string) (v : JsValue) (o : JsObject) :
  key ≠ "__proto__" → own (obj_assign key v o) !! key = Some v.
Proof.
  intros Hne. rewrite obj_assign_ordinary by done. cbn [own].
  apply lookup_insert_eq.
Qed.

(** on an object literal the accessor is reached: no own property is
    written *)
Lemma obj_assign_accessor (v : JsValue) (o : JsObject) :
  own o !! "__proto__" = None → proto o = ObjectPrototype →
  own (obj_assign "__proto__" v o) = own o.
Proof.
  intros Hown Hproto. unfold obj_assign. rewrite Hown, Hproto.
  cbn. by destruct v.
Qed.

Lemma src_assign_ne (key k : string) (tag : SourceTag) (s : ConfigSource) :
  k ≠ key → src_assign key tag s !! k = s !! k.
Proof.
  intros Hne. unfold src_assign. destruct (String.eqb key "__proto__");
    [done|]. by rewrite lookup_insert_ne.
Qed.

Lemma src_assign_eq (key : string) (tag : SourceTag) (s : ConfigSource) :
  key ≠ "__proto__" → src_assign key tag s !! key = Some tag.
Proof.
  intros Hne. unfold src_assign.
  rewrite (proj2 (String.eqb_neq _ _) Hne). apply lookup_insert_eq.
Qed.

Lemma src_assign_accessor (key : string) (tag : SourceTag) (s : ConfigSource) :
  src_assign key tag s !! "__proto__" = s !! "__proto__".
Proof.
  unfold src_assign. destruct (String.eqb key "__proto__") eqn:E; [done|].
  apply String.eqb_neq in E. by rewrite lookup_insert_ne.
Qed.

Lemma obj_read_own (o : JsObject) (key : string) (v : JsValue) :
  own o !! key = Some v → obj_read o key = v.
Proof. unfold obj_read. by intros ->. Qed.

Lemma obj_read_plain (config : FlexibleConfig) (key : string) :
  obj_read (plain config) key = get config key.
Proof. unfold obj_read, get, plain. cbn. by destruct (config !! key). Qed.

Lemma hasOwnProperty_method_plain (config : FlexibleConfig) :
  hasOwnProperty_method (plain config) = true
  ↔ config !! "hasOwnProperty" = None.
Proof.
  unfold hasOwnProperty_method, plain. cbn [own proto proto_field].
  destruct (config !! "hasOwnProperty") as [v|].
  - rewrite bool_decide_eq_true_2 by yes_some. done.
  - rewrite bool_decide_eq_false_2 by no_some. done.
Qed.

Lemma hasOwnProperty_method_own (o : JsObject) :
  hasOwnProperty_method o = true → own o !! "hasOwnProperty" = None.
Proof.
  unfold hasOwnProperty_method.
  destruct (own o !! "hasOwnProperty") as [v|]; [|done].
  by rewrite bool_decide_eq_true_2 by yes_some.
Qed.

Section Precedence.

Variables headerConfig envConfig defaultConfig : JsObject.

Local Abbreviation precedence_spec :=
  (precedence_spec (own headerConfig) (own envConfig) (own defaultConfig)).
Local Abbreviation allKeys :=
  (elements (dom (own defaultConfig) ∪ dom (own envConfig)
             ∪ dom (own headerConfig))).

Lemma guard_defined_in (o : JsObject) key :
  bool_decide (is_Some (own o !! key)) && is_defined (obj_read o key)
  = bool_decide (is_Some (defined_in (own o) key)).
Proof.
  unfold obj_read, defined_in.
  destruct (own o !! key) as [v|]; simpl; [destruct (is_defined v)|];
    reflexivity.
Qed.

Lemma get_defined_in (o : JsObject) key v :
  defined_in (own o) key = Some v → obj_read o key = v.
Proof.
  unfold defined_in, obj_read. destruct (own o !! key) as [w|]; [|done].
  destruct (is_defined w); naive_solver.
Qed.

(** *** When the loop throws *)

Lemma resolveKey_throws_header (acc : JsObject * ConfigSource) key :
  hasOwnProperty_method headerConfig = false →
  resolveKey headerConfig envConfig defaultConfig acc key = None.
Proof.
  intros H. destruct acc as [r s].
  unfold resolveKey, hasOwnProperty. by rewrite H.
Qed.

(** the deployment source is asked only about a key that the request
    source does not hold *)
Lemma resolveKey_throws_env (acc : JsObject * ConfigSource) key :
  own headerConfig !! key = None →
  hasOwnProperty_method envConfig = false →
  resolveKey headerConfig envConfig defaultConfig acc key = None.
Proof.
  intros Hk He. destruct acc as [r s].
  unfold resolveKey, hasOwnProperty. rewrite He, Hk.
  destruct (hasOwnProperty_method headerConfig); [|done].
  cbn [mbind option_bind].
  rewrite bool_decide_eq_false_2 by no_some. done.
Qed.

Lemma resolveKeys_throws (keys : list string) (key : string)
    (acc : JsObject * ConfigSource) :
  key ∈ keys →
  (∀ acc', resolveKey headerConfig envConfig defaultConfig acc' key = None) →
  resolveKeys headerConfig envConfig defaultConfig keys acc = None.
Proof.
  intros Hin Hthrow. revert acc.
  induction keys as [|k keys IH]; intros acc.
  { by apply elem_of_nil in Hin. }
  cbn [resolveKeys].
  destruct (resolveKey headerConfig envConfig defaultConfig acc k)
    as [acc'|] eqn:Ek; [|done].
  cbn. apply elem_of_cons in Hin as [->|Hin]; [|by apply IH].
  by rewrite Hthrow in Ek.
Qed.

(** *** When every method is intact *)

Hypothesis intact : methods_intact headerConfig envConfig defaultConfig.

(** One turn of the loop writes the precedence outcome of its key. *)
Lemma resolveKey_spec (acc : JsObject * ConfigSource) key :
  resolveKey headerConfig envConfig defaultConfig acc key
  = Some match precedence_spec key with
         | Some (v, s) => (obj_assign key v acc.1, src_assign key s acc.2)
         | None => acc
         end.
Proof.
  destruct intact as (Hh & He & Hd).
  destruct acc as [r s]. unfold resolveKey, hasOwnProperty, precedence_spec.
  rewrite Hh, He, Hd. cbn [mbind option_bind].
  rewrite !guard_defined_in.
  destruct (defined_in (own headerConfig) key) as [v|] eqn:Eh.
  { rewrite bool_decide_eq_true_2 by yes_some.
    by rewrite (get_defined_in _ _ _ Eh). }
  rewrite bool_decide_eq_false_2 by no_some.
  destruct (defined_in (own envConfig) key) as [v|] eqn:Ee.
  { rewrite bool_decide_eq_true_2 by yes_some.
    by rewrite (get_defined_in _ _ _ Ee). }
  rewrite bool_decide_eq_false_2 by no_some.
  destruct (defined_in (own defaultConfig) key) as [v|] eqn:Ed.
  { rewrite bool_decide_eq_true_2 by yes_some.
    by rewrite (get_defined_in _ _ _ Ed). }
  by rewrite bool_decide_eq_false_2 by no_some.
Qed.

(** The loop returns, and at a key [k] other than [__proto__] it leaves
    the outcome of [k] if [k] is visited and a source defines it, the
    initial entry otherwise. *)
Lemma resolve_loop_lookup (keys : list string)
    (acc : JsObject * ConfigSource) k :
  k ≠ "__proto__" →
  ∃ out,
    resolveKeys headerConfig envConfig defaultConfig keys acc = Some out
    ∧ match precedence_spec k with
      | Some (v, s) =>
          if decide (k ∈ keys)
          then own out.1 !! k = Some v ∧ out.2 !! k = Some s
          else own out.1 !! k = own acc.1 !! k ∧ out.2 !! k = acc.2 !! k
      | None => own out.1 !! k = own acc.1 !! k ∧ out.2 !! k = acc.2 !! k
      end.
Proof.
  intros Hk. revert acc. induction keys as [|key keys IH]; intros acc;
    cbn [resolveKeys].
  { exists acc. split; [done|].
    destruct (precedence_spec k) as [[v s]|]; [|done].
    case_decide as Hin; [by apply elem_of_nil in Hin|done]. }
  rewrite resolveKey_spec. cbn [mbind option_bind].
  destruct (IH (match precedence_spec key with
                | Some (v, s) =>
                    (obj_assign key v acc.1, src_assign key s acc.2)
                | None => acc
                end)) as (out & Hout & IHk).
  exists out. split; [exact Hout|].
  destruct (precedence_spec k) as [[v s]|] eqn:Ek.
  - destruct (decide (k ∈ keys)) as [Hin|Hnin].
    + rewrite decide_True by (apply elem_of_cons; by right). done.
    + destruct IHk as [IH1 IH2]. rewrite IH1, IH2.
      destruct (decide (key = k)) as [->|Hne].
      * rewrite decide_True by (apply elem_of_cons; by left).
        rewrite Ek. cbn [fst snd].
        by rewrite obj_assign_own_eq, src_assign_eq.
      * rewrite decide_False
          by (intros [?|?]%elem_of_cons; congruence).
        destruct (precedence_spec key) as [[v' s']|]; cbn [fst snd]; [|done].
        by rewrite obj_assign_own_ne, src_assign_ne.
  - destruct IHk as [IH1 IH2]. rewrite IH1, IH2.
    destruct (decide (key = k)) as [->|Hne].
    + by rewrite Ek.
    + destruct (precedence_spec key) as [[v' s']|]; cbn [fst snd]; [|done].
      by rewrite obj_assign_own_ne, src_assign_ne.
Qed.

(** The key [__proto__] is never written as an own property of
    [resolved], nor of [sources]: the object literals reach the accessor,
    and each key is visited once. *)
Lemma resolve_loop_accessor (keys : list string)
    (acc out : JsObject * ConfigSource) :
  NoDup keys →
  own acc.1 !! "__proto__" = None →
  ("__proto__" ∈ keys → proto acc.1 = ObjectPrototype) →
  acc.2 !! "__proto__" = None →
  resolveKeys headerConfig envConfig defaultConfig keys acc = Some out →
  own out.1 !! "__proto__" = None ∧ out.2 !! "__proto__" = None.
Proof.
  intros Hnd. revert acc.
  induction Hnd as [|key keys Hnin Hnd IH]; intros acc Hown Hproto Hsrc;
    cbn [resolveKeys].
  { by intros [= <-]. }
  rewrite resolveKey_spec. cbn [mbind option_bind].
  apply IH.
  - destruct (precedence_spec key) as [[v s]|]; cbn [fst]; [|done].
    destruct (decide (key = "__proto__")) as [->|Hne].
    + rewrite obj_assign_accessor; [done..|].
      apply Hproto, elem_of_cons. by left.
    + by rewrite obj_assign_own_ne.
  - intros Hin.
    assert (Hne : key ≠ "__proto__") by (by intros ->).
    destruct (precedence_spec key) as [[v s]|]; cbn [fst].
    + rewrite obj_assign_ordinary by done. cbn [proto].
      apply Hproto, elem_of_cons. by right.
    + apply Hproto, elem_of_cons. by right.
  - destruct (precedence_spec key) as [[v s]|]; cbn [snd]; [|done].
    by rewrite src_assign_accessor.
Qed.

Lemma defined_in_dom (config : FlexibleConfig) k v :
  defined_in config k = Some v → k ∈ dom config.
Proof.
  unfold defined_in. intros H. apply elem_of_dom.
  destruct (config !! k); [eauto|done].
Qed.

Lemma precedence_spec_dom k v s :
  precedence_spec k = Some (v, s) → k ∈ allKeys.
Proof.
  unfold precedence_spec. intros H. apply elem_of_elements.
  destruct (defined_in (own headerConfig) k) eqn:Eh.
  { apply defined_in_dom in Eh. set_solver. }
  destruct (defined_in (own envConfig) k) eqn:Ee.
  { apply defined_in_dom in Ee. set_solver. }
  destruct (defined_in (own defaultConfig) k) eqn:Ed; [|done].
  apply defined_in_dom in Ed. set_solver.
Qed.

(** the tool list is an array, whichever branch supplies it *)
Lemma resolveToolFiltering_array :
  ∃ tools,
    resolveToolFiltering headerConfig envConfig defaultConfig = JArr tools.
Proof.
  unfold resolveToolFiltering.
  repeat match goal with
         | |- context [truthy ?x && isArray ?x] =>
             destruct x; cbn [truthy isArray andb];
             rewrite ?andb_false_r; try (by eexists)
         end.
  all: by eexists.
Qed.

(** The resolution returns its context: every key other than the
    reserved one and [__proto__] is resolved by strict precedence, a key
    no source defines is left out, and the reserved key holds the tool
    list. *)
Lemma resolveSources_intact :
  ∃ ctx,
    resolveSources headerConfig envConfig defaultConfig = Some ctx
    ∧ (∀ k, k ≠ "availableTools" → k ≠ "__proto__" →
         own (resolved ctx) !! k = fst <$> precedence_spec k
         ∧ sources ctx !! k = snd <$> precedence_spec k)
    ∧ own (resolved ctx) !! "availableTools"
      = Some (resolveToolFiltering headerConfig envConfig defaultConfig)
    ∧ sources ctx !! "availableTools"
      = Some (getToolFilteringSource headerConfig envConfig defaultConfig)
    ∧ (own (resolved ctx) !! "__proto__" = None
       ∧ sources ctx !! "__proto__" = None)
    ∧ warnings (validation ctx)
      = (if length_is_zero
              (resolveToolFiltering headerConfig envConfig defaultConfig)
         then [no_tools_warning] else [])
    ∧ isValid (validation ctx) = true
    ∧ errors (validation ctx) = []
    ∧ raw ctx = {| raw_headers := headerConfig; raw_env := envConfig;
                   raw_defaults := defaultConfig |}.
Proof.
  unfold resolveSources.
  destruct (resolve_loop_lookup allKeys
              (plain {["availableTools" := JArr []]}, ∅) "availableTools")
    as ([r s] & Hout & _); [done|].
  rewrite Hout. cbn [mbind option_bind].
  eexists. split; [reflexivity|]. cbn [resolved sources validation raw].
  rewrite (obj_assign_ordinary "availableTools") by done.
  cbn [own].
  split; [|split; [|split; [|split; [|split; [|done]]]]].
  - intros k Hk Hp. rewrite lookup_insert_ne, src_assign_ne by done.
    destruct (resolve_loop_lookup allKeys
                (plain {["availableTools" := JArr []]}, ∅) k Hp)
      as (out & Hout' & L).
    rewrite Hout in Hout'. injection Hout' as <-. cbn [fst snd plain own] in L.
    destruct (precedence_spec k) as [[v t]|] eqn:Ek; cbn [fmap option_fmap option_map fst snd].
    + rewrite decide_True in L by (by eapply precedence_spec_dom). done.
    + destruct L as [-> ->].
      by rewrite lookup_singleton_ne, lookup_empty.
  - apply lookup_insert_eq.
  - by apply src_assign_eq.
  - rewrite lookup_insert_ne, src_assign_accessor by done.
    apply (resolve_loop_accessor allKeys
             (plain {["availableTools" := JArr []]}, ∅) (r, s));
      [apply NoDup_elements|done|done|done|exact Hout].
  - unfold obj_read. cbn [own]. rewrite lookup_insert_eq.
    destruct resolveToolFiltering_array as [tools ->]. reflexivity.
Qed.

End Precedence.

(** *** The tool-list chain *)

Lemma array_guard (config : FlexibleConfig) key :
  truthy (get config key) && isArray (get config key)
  = bool_decide (is_Some (as_array (config !! key))).
Proof.
  unfold get. destruct (config !! key) as [[]|]; simpl;
    rewrite ?andb_false_r; reflexivity.
Qed.

Lemma array_get (config : FlexibleConfig) key tools :
  as_array (config !! key) = Some tools → get config key = JArr tools.
Proof.
  unfold get. destruct (config !! key) as [[]|]; simpl; congruence.
Qed.

Lemma obj_read_not_inherited (o : JsObject) (key : string) :
  proto_field (proto o) key = None → obj_read o key = get (own o) key.
Proof.
  intros H. unfold obj_read, get. rewrite H. by destruct (own o !! key).
Qed.

(** When the request source inherits no [to-use], the tool list is the
    first array of the chain over the own properties of the sources. *)
Lemma toolFiltering_chain (headerConfig : JsObject)
    (envConfig defaultConfig : FlexibleConfig) :
  proto_field (proto headerConfig) "to-use" = None →
  let chain := toolListChain_spec (own headerConfig) envConfig defaultConfig in
  resolveToolFiltering headerConfig (plain envConfig) (plain defaultConfig)
  = JArr chain.1
  ∧ getToolFilteringSource headerConfig (plain envConfig)
      (plain defaultConfig)
    = chain.2.
Proof.
  intros Hproto chain. subst chain.
  unfold resolveToolFiltering, getToolFilteringSource, toolListChain_spec.
  rewrite !obj_read_plain, (obj_read_not_inherited _ _ Hproto).
  rewrite !array_guard.
  destruct (as_array (own headerConfig !! "to-use")) eqn:E1.
  { rewrite bool_decide_eq_true_2 by yes_some.
    by rewrite (array_get _ _ _ E1). }
  rewrite bool_decide_eq_false_2 by no_some.
  destruct (as_array (envConfig !! "defaultTools")) eqn:E2.
  { rewrite bool_decide_eq_true_2 by yes_some.
    by rewrite (array_get _ _ _ E2). }
  rewrite bool_decide_eq_false_2 by no_some.
  destruct (as_array (envConfig !! "availableTools")) eqn:E3.
  { rewrite bool_decide_eq_true_2 by yes_some.
    by rewrite (array_get _ _ _ E3). }
  rewrite bool_decide_eq_false_2 by no_some.
  destruct (as_array (defaultConfig !! "availableTools")) eqn:E4.
  { rewrite bool_decide_eq_true_2 by yes_some.
    by rewrite (array_get _ _ _ E4). }
  by rewrite bool_decide_eq_false_2 by no_some.
Qed.

(** *** Key normalization never yields the reserved key *)

Lemma toUpperCase_az_not_lower l :
  is_lower l = true → is_lower (toUpperCase_az l) = false.
Proof. destruct l as [[] [] [] [] [] [] [] []]; vm_compute; congruence. Qed.

Lemma toUpperCase_az_not_hyphen l :
  is_lower l = true → Ascii.eqb (toUpperCase_az l) "-" = false.
Proof. destruct l as [[] [] [] [] [] [] [] []]; vm_compute; congruence. Qed.

Lemma kebab_head_not_lower l rest :
  is_lower l = false →
  head_not_lower (kebabToCamelCase (String l rest)).
Proof.
  intros Hl. unfold kebabToCamelCase. cbn [replace_sep_letter].
  destruct (Ascii.eqb l "-"); [|exact Hl].
  destruct rest as [|l' rest']; [exact Hl|].
  destruct (is_lower l') eqn:E; [|exact Hl].
  cbn. by apply toUpperCase_az_not_lower.
Qed.

Lemma kebab_no_sep_letter_upto (n : nat) (s : string) :
  (String.length s <= n)%nat →
  has_sep_letter "-" (kebabToCamelCase s) = false.
Proof.
  revert s. induction n as [|n IH]; intros s Hn.
  { destruct s; [done|simpl in Hn; lia]. }
  destruct s as [|c rest]; [done|].
  unfold kebabToCamelCase in *. cbn [replace_sep_letter].
  assert (Hrest : has_sep_letter "-" (replace_sep_letter "-" rest) = false)
    by (apply IH; simpl in Hn; lia).
  destruct (Ascii.eqb c "-") eqn:Ec.
  - destruct rest as [|l rest']; [done|].
    destruct (is_lower l) eqn:El.
    + assert (Hrest' :
        has_sep_letter "-" (replace_sep_letter "-" rest') = false)
        by (apply IH; simpl in Hn; lia).
      cbn [has_sep_letter].
      destruct (replace_sep_letter "-" rest'); [done|].
      rewrite Hrest', (toUpperCase_az_not_hyphen _ El). done.
    + pose proof (kebab_head_not_lower l rest' El) as Hh.
      unfold kebabToCamelCase, head_not_lower in Hh.
      cbn [has_sep_letter].
      destruct (replace_sep_letter "-" (String l rest')); [done|].
      rewrite Hrest, Hh, andb_false_r. done.
  - cbn [has_sep_letter].
    destruct (replace_sep_letter "-" rest); [done|].
    rewrite Hrest, Ec. done.
Qed.

Lemma kebabToCamelCase_not_to_use (key : string) :
  kebabToCamelCase key ≠ "to-use".
Proof.
  intros E.
  pose proof (kebab_no_sep_letter_upto (String.length key) key (le_n _)) as H.
  rewrite E in H. vm_compute in H. discriminate.
Qed.

(** *** The reserved [to-use] header *)

Lemma extractHeaderConfig_fold (headers : Headers) :
  extractHeaderConfig headers = fold_left headerStep headers (plain ∅).
Proof. reflexivity. Qed.

(** every header is one assignment *)
Lemma headerStep_assign (config : JsObject) (name value : string) :
  headerStep config (name, value)
  = obj_assign (header_key name) (header_value name value) config.
Proof.
  unfold headerStep, header_key, header_value.
  destruct (String.eqb name "to-use"); [|done].
  by destruct (JSON.parse value).
Qed.

Lemma header_key_not_to_use (name : string) :
  name ≠ "to-use" → header_key name ≠ "to-use".
Proof.
  intros Hne. unfold header_key.
  rewrite (proj2 (String.eqb_neq _ _) Hne).
  apply kebabToCamelCase_not_to_use.
Qed.

Lemma headerStep_other_keys (rest : Headers) (config : JsObject) :
  "to-use" ∉ rest.*1 →
  own (fold_left headerStep rest config) !! "to-use"
  = own config !! "to-use".
Proof.
  revert config. induction rest as [|[key value] rest IH]; intros config Hn;
    [done|].
  cbn [fold_left]. rewrite fmap_cons in Hn. cbn [fst] in Hn.
  apply not_elem_of_cons in Hn as [Hne Hn].
  rewrite IH by done. rewrite headerStep_assign.
  apply obj_assign_own_ne. intros E. symmetry in E.
  by apply header_key_not_to_use in E.
Qed.

(** The stored value of [to-use] is the parse of the header's value, or
    the empty array when that parse fails: the extraction itself never
    throws. *)
Lemma extractHeaderConfig_to_use (before after : Headers) (value : string) :
  "to-use" ∉ after.*1 →
  own (extractHeaderConfig (before ++ ("to-use", value) :: after))
    !! "to-use"
  = Some (default (JArr []) (JSON.parse value)).
Proof.
  intros Hn. rewrite extractHeaderConfig_fold, fold_left_app.
  cbn [fold_left]. rewrite headerStep_other_keys by done.
  rewrite headerStep_assign.
  change (header_key "to-use") with "to-use".
  change (header_value "to-use" value)
    with (default (JArr []) (JSON.parse value)).
  by apply obj_assign_own_eq.
Qed.

(** *** When the resolution of a request returns *)

Lemma resolvable_intact (headers : Headers) (env : JsValue) :
  resolvable headers env →
  methods_intact (extractHeaderConfig headers) (plain (extractEnvConfig env))
    (plain getDefaultConfig).
Proof.
  intros [Hh He]. split; [exact Hh|]. split.
  - by apply hasOwnProperty_method_plain.
  - vm_compute. reflexivity.
Qed.

Lemma allKeys_timeout (headerConfig envConfig : JsObject) :
  "timeout" ∈ elements (dom (own (plain getDefaultConfig))
                          ∪ dom (own envConfig) ∪ dom (own headerConfig)).
Proof.
  apply elem_of_elements, elem_of_union. left. apply elem_of_union. left.
  apply elem_of_dom. vm_compute. by eexists.
Qed.

(** The resolution throws when the request source has lost the method,
    and when the deployment source holds a property of its name. *)
Lemma resolveConfig_throws (headers : Headers) (env : JsValue) :
  ¬ resolvable headers env → resolveConfig headers env = None.
Proof.
  intros Hnot. unfold resolveConfig, resolveSources.
  destruct (hasOwnProperty_method (extractHeaderConfig headers)) eqn:Hh.
  - destruct (extractEnvConfig env !! "hasOwnProperty") as [v|] eqn:He.
    2: { exfalso. apply Hnot. by split. }
    rewrite (resolveKeys_throws _ _ _ _ "hasOwnProperty"); [done| |].
    + apply elem_of_elements, elem_of_union. left. apply elem_of_union.
      right. apply elem_of_dom. cbn [plain own]. by eexists.
    + intros acc. apply resolveKey_throws_env.
      * by apply hasOwnProperty_method_own.
      * destruct (hasOwnProperty_method (plain (extractEnvConfig env)))
          eqn:E; [|done].
        apply hasOwnProperty_method_plain in E. congruence.
  - rewrite (resolveKeys_throws _ _ _ _ "timeout"); [done| |].
    + apply allKeys_timeout.
    + intros acc. by apply resolveKey_throws_header.
Qed.
(** *** Generic precedence *)

(** With [available-tools] in the request, [AVAILABLE_TOOLS] in the
    deployment and [availableTools] in the fallback, the key is defined in
    all three sources, yet the resolved value is the deployment's. *)
Lemma reserved_key_not_by_precedence :
  ¬ (∀ (headers : Headers) (env : JsValue) (k : string) (v : JsValue),
       defined_in (own (extractHeaderConfig headers)) k = Some v →
       is_Some (defined_in (extractEnvConfig env) k) →
       is_Some (defined_in getDefaultConfig k) →
       ∃ ctx, resolveConfig headers env = Some ctx
              ∧ own (resolved ctx) !! k = Some v
              ∧ sources ctx !! k = Some SrcHeader).
Proof.
  intros H.
  destruct (H tools_headers tools_env "availableTools" (JArr [JStr "x"]))
    as (ctx & Hctx & Hv & _).
  - vm_compute. reflexivity.
  - vm_compute. by eexists.
  - vm_compute. by eexists.
  - vm_compute in Hctx. injection Hctx as <-.
    vm_compute in Hv. discriminate.
Qed.

(** C1 (amended). When [hasOwnProperty] is still the method of
    [Object.prototype] on each of the three sources, the resolution
    returns its context, and for every key [k] other than
    [availableTools] and [__proto__]: if the request source defines [k],
    [resolved[k]] is its value and [sources[k]] is the request; else if
    the deployment source defines it, the deployment's value and the
    deployment; else if the fallback source defines it, the fallback's
    value and the fallback; a source where [k] is absent or [undefined]
    is skipped, and a key no source defines is not resolved at all.
    ([resolveConfig headers env] is [resolveSources] at the three
    extracted sources.) *)
Theorem generic_precedence
    (headerConfig envConfig defaultConfig : JsObject) (k : string) :
  methods_intact headerConfig envConfig defaultConfig →
  k ≠ "availableTools" → k ≠ "__proto__" →
  ∃ ctx,
    resolveSources headerConfig envConfig defaultConfig = Some ctx
    ∧ (∀ v, defined_in (own headerConfig) k = Some v →
            own (resolved ctx) !! k = Some v
            ∧ sources ctx !! k = Some SrcHeader)
    ∧ (∀ v, defined_in (own headerConfig) k = None →
            defined_in (own envConfig) k = Some v →
            own (resolved ctx) !! k = Some v ∧ sources ctx !! k = Some SrcEnv)
    ∧ (∀ v, defined_in (own headerConfig) k = None →
            defined_in (own envConfig) k = None →
            defined_in (own defaultConfig) k = Some v →
            own (resolved ctx) !! k = Some v
            ∧ sources ctx !! k = Some SrcDefault)
    ∧ (defined_in (own headerConfig) k = None →
       defined_in (own envConfig) k = None →
       defined_in (own defaultConfig) k = None →
       own (resolved ctx) !! k = None ∧ sources ctx !! k = None).
Proof.
  intros Hintact Hk Hp.
  destruct (resolveSources_intact headerConfig envConfig defaultConfig
              Hintact) as (ctx & Hctx & Hgen & _).
  exists ctx. split; [exact Hctx|].
  destruct (Hgen k Hk Hp) as [Hr Hs].
  unfold precedence_spec in Hr, Hs.
  repeat split; intros;
    repeat match goal with
           | E : defined_in _ k = _ |- _ => rewrite E in Hr, Hs; clear E
           end; assumption.
Qed.

Lemma generic_precedence_witness :
  ∃ ctx,
    resolveConfig url_headers url_env = Some ctx
    ∧ (own (resolved ctx) !! "clientUrl" = Some (JStr "http://request")
       ∧ sources ctx !! "clientUrl" = Some SrcHeader)
    ∧ (own (resolved ctx) !! "clientDb" = Some (JStr "prod")
       ∧ sources ctx !! "clientDb" = Some SrcEnv).
Proof.
  assert (Hintact : methods_intact (extractHeaderConfig url_headers)
                      (plain (extractEnvConfig url_env))
                      (plain getDefaultConfig))
    by (repeat split; vm_compute; reflexivity).
  destruct (generic_precedence (extractHeaderConfig url_headers)
              (plain (extractEnvConfig url_env)) (plain getDefaultConfig)
              "clientUrl" Hintact) as (ctx & Hctx & Hurl & _);
    [discriminate|discriminate|].
  destruct (generic_precedence (extractHeaderConfig url_headers)
              (plain (extractEnvConfig url_env)) (plain getDefaultConfig)
              "clientDb" Hintact) as (ctx' & Hctx' & _ & Hdb & _);
    [discriminate|discriminate|].
  rewrite Hctx in Hctx'. injection Hctx' as <-.
  exists ctx. split; [exact Hctx|]. split.
  - apply Hurl. vm_compute. reflexivity.
  - apply Hdb; vm_compute; reflexivity.
Defined.

(** *** Tool-list precedence *)

(** C2 (code defect). The chain is not followed for every resolution. A
    request with the headers [has-own-property: 1] and [to-use: ["a"]]
    makes the loop over the keys call a number as a method: the
    resolution throws before any tool list is assigned. A request whose
    only header is [__proto__: {"to-use":["x"]}] has no [to-use] key in
    its source, yet the resolved tool list is [["x"]], attributed to the
    request: the header has installed a prototype from which
    [headerConfig['to-use']] is read. *)
Theorem tool_list_chain_defect :
  resolveConfig shadowing_headers default_tools_env = None
  ∧ own (extractHeaderConfig proto_headers) !! "to-use" = None
  ∧ ∃ ctx,
      resolveConfig proto_headers default_tools_env = Some ctx
      ∧ own (resolved ctx) !! "availableTools" = Some (JArr [JStr "x"])
      ∧ sources ctx !! "availableTools" = Some SrcHeader.
Proof.
  split; [vm_compute; reflexivity|]. split; [vm_compute; reflexivity|].
  eexists. split; [vm_compute; reflexivity|].
  split; vm_compute; reflexivity.
Qed.

(** Apart from those requests the chain holds: when the methods are
    intact and the request source inherits no [to-use], the resolved
    [availableTools] is the value of the dedicated chain (the request's
    [to-use] array, empty or not; else the deployment's [defaultTools]
    array; else the deployment's [availableTools] array; else the
    fallback's [availableTools] array; else the empty array), whatever
    generic precedence wrote for that key, and [sources.availableTools]
    is the branch of the chain. *)
Lemma tool_list_precedence
    (headerConfig : JsObject) (envConfig defaultConfig : FlexibleConfig) :
  methods_intact headerConfig (plain envConfig) (plain defaultConfig) →
  proto_field (proto headerConfig) "to-use" = None →
  let chain := toolListChain_spec (own headerConfig) envConfig defaultConfig in
  ∃ ctx,
    resolveSources headerConfig (plain envConfig) (plain defaultConfig)
    = Some ctx
    ∧ own (resolved ctx) !! "availableTools" = Some (JArr chain.1)
    ∧ sources ctx !! "availableTools" = Some chain.2.
Proof.
  intros Hintact Hproto chain.
  destruct (resolveSources_intact headerConfig (plain envConfig)
              (plain defaultConfig) Hintact)
    as (ctx & Hctx & _ & Hr & Hs & _).
  destruct (toolFiltering_chain headerConfig envConfig defaultConfig Hproto)
    as [E1 E2].
  exists ctx. split; [exact Hctx|]. by rewrite Hr, Hs, E1, E2.
Qed.

(** the example of the specification: [to-use: ["a"]] wins over
    [DEFAULT_TOOLS=["b","c"]] and the fallback list *)
Example tool_list_request_wins :
  ∃ ctx,
    resolveConfig to_use_headers default_tools_env = Some ctx
    ∧ own (resolved ctx) !! "availableTools" = Some (JArr [JStr "a"])
    ∧ sources ctx !! "availableTools" = Some SrcHeader.
Proof.
  eexists. split; [vm_compute; reflexivity|]. split; vm_compute; reflexivity.
Qed.

Example tool_list_fallthrough :
  ∃ ctx,
    resolveConfig [] default_tools_env = Some ctx
    ∧ own (resolved ctx) !! "availableTools"
      = Some (JArr [JStr "b"; JStr "c"])
    ∧ sources ctx !! "availableTools" = Some SrcEnv.
Proof.
  eexists. split; [vm_compute; reflexivity|]. split; vm_compute; reflexivity.
Qed.

(** an empty [to-use] array still wins *)
Example tool_list_empty_request_wins :
  ∃ ctx,
    resolveConfig [("to-use", "[]")] default_tools_env = Some ctx
    ∧ own (resolved ctx) !! "availableTools" = Some (JArr [])
    ∧ sources ctx !! "availableTools" = Some SrcHeader.
Proof.
  eexists. split; [vm_compute; reflexivity|]. split; vm_compute; reflexivity.
Qed.

(** *** Degradation of the [to-use] header *)

(** C8 (code defect). The extraction degrades a [to-use] header that is
    not JSON to the empty array without throwing, but the resolution of
    the same request can still raise to the caller: with the header
    [has-own-property: 1] beside it, [resolveConfig] throws, and no
    context, hence no warning, is returned. *)
Theorem to_use_degradation_defect :
  own (extractHeaderConfig bad_to_use_shadowing_headers) !! "to-use"
  = Some (JArr [])
  ∧ resolveConfig bad_to_use_shadowing_headers JNull = None.
Proof. split; vm_compute; reflexivity. Qed.

(** Apart from such requests the degradation is as specified. The
    [to-use] header is stored under the key [to-use] itself, as the JSON
    parse of its value, and the extraction never throws; when the parse
    fails the stored value is the empty array, and a resolution whose
    methods are intact returns its context, with [availableTools] empty,
    and [validation.warnings] holds a warning while [isValid] stays
    true. *)
Lemma to_use_parse_degradation
    (before after : Headers) (value : string) (env : JsValue) :
  "to-use" ∉ after.*1 →
  let headers := before ++ ("to-use", value) :: after in
  own (extractHeaderConfig headers) !! "to-use"
  = Some (default (JArr []) (JSON.parse value))
  ∧ (JSON.parse value = None →
     resolvable headers env →
     ∃ ctx,
       resolveConfig headers env = Some ctx
       ∧ own (resolved ctx) !! "availableTools" = Some (JArr [])
       ∧ sources ctx !! "availableTools" = Some SrcHeader
       ∧ warnings (validation ctx) = [no_tools_warning]
       ∧ isValid (validation ctx) = true).
Proof.
  intros Hlast headers.
  pose proof (extractHeaderConfig_to_use before after value Hlast) as Hget.
  fold headers in Hget. split; [exact Hget|].
  intros Hfail Hres. rewrite Hfail in Hget. cbn [default] in Hget.
  destruct (resolveSources_intact _ _ _ (resolvable_intact headers env Hres))
    as (ctx & Hctx & _ & Hr & Hs & _ & Hw & Hv & _).
  assert (Hread : obj_read (extractHeaderConfig headers) "to-use" = JArr [])
    by (by apply obj_read_own).
  assert (Hchain : resolveToolFiltering (extractHeaderConfig headers)
                     (plain (extractEnvConfig env)) (plain getDefaultConfig)
                   = JArr []
                   ∧ getToolFilteringSource (extractHeaderConfig headers)
                       (plain (extractEnvConfig env)) (plain getDefaultConfig)
                     = SrcHeader).
  { unfold resolveToolFiltering, getToolFilteringSource.
    by rewrite Hread. }
  destruct Hchain as [Ht Hsrc].
  exists ctx. split; [exact Hctx|].
  rewrite Hr, Hs, Hw, Hv, Ht, Hsrc. done.
Qed.

Example bad_to_use_degrades :
  ∃ ctx,
    resolveConfig bad_to_use_headers JNull = Some ctx
    ∧ own (extractHeaderConfig bad_to_use_headers) !! "to-use"
      = Some (JArr [])
    ∧ own (resolved ctx) !! "availableTools" = Some (JArr [])
    ∧ warnings (validation ctx) = [no_tools_warning].
Proof.
  eexists. split; [vm_compute; reflexivity|].
  split; [|split]; vm_compute; reflexivity.
Qed.

(** *** Examples of extraction *)

Example key_normalization :
  kebabToCamelCase "api-url" = "apiUrl"
  ∧ upperCaseToCamelCase "API_URL" = "apiUrl"
  ∧ kebabToCamelCase "plain" = "plain"
  ∧ upperCaseToCamelCase "Plain" = "plain".
Proof. repeat split. Qed.

(** a [_TOOLS] variable that is not JSON is split on commas and trimmed *)
Example env_tool_list_fallback :
  extractEnvConfig (JObj [("DEFAULT_TOOLS", JStr "add, calculate")])
    !! "defaultTools"
  = Some (JArr [JStr "add"; JStr "calculate"]).
Proof. vm_compute. reflexivity. Qed.

(** with no header and no environment, every key comes from the
    fallback *)
Example resolve_defaults_only :
  ∃ ctx,
    resolveConfig [] JNull = Some ctx
    ∧ own (resolved ctx) = getDefaultConfig
    ∧ sources ctx !! "timeout" = Some SrcDefault
    ∧ warnings (validation ctx) = [].
Proof.
  eexists. split; [vm_compute; reflexivity|].
  split; [|split]; vm_compute; reflexivity.
Qed.

(** a header named [__proto__] is never stored as a key *)
Example proto_header_not_stored :
  own (extractHeaderConfig [("__proto__", "1")]) = ∅
  ∧ proto (extractHeaderConfig [("__proto__", "1")]) = ObjectPrototype
  ∧ own (extractHeaderConfig proto_headers) = ∅
  ∧ proto (extractHeaderConfig proto_headers)
    = ObjectValue [("to-use", JArr [JStr "x"])].
Proof. repeat split; vm_compute; reflexivity. Qed.

(** ** Properties of value coercion *)

Ltac by_cases_on_char c :=
  destruct c as [[] [] [] [] [] [] [] []].

Lemma parse_value_digit (n : nat) (c : ascii) (r : string) :
  is_digit c = true →
  JSON.parse_value (S n) (String c r)
  = JSON.lex_number (String c r) ≫= λ '(q, rest), Some (JNum q, rest).
Proof.
  by_cases_on_char c; intros H; try (vm_compute in H; discriminate);
    reflexivity.
Qed.

Lemma lex_number_digit (c : ascii) (r : string) :
  is_digit c = true →
  JSON.lex_number (String c r)
  = '(ip, s1) ← JSON.lex_int (String c r);
    '(fp, s2) ← JSON.lex_frac s1;
    '(ex, s3) ← JSON.lex_exp s2;
    Some (JSON.decimal (JSON.digits_val 0 (ip +:+ fp))
            (ex - Z.of_nat (String.length fp)), s3).
Proof.
  by_cases_on_char c; intros H; try (vm_compute in H; discriminate);
    reflexivity.
Qed.

Lemma span_digits_head (s ds rest : string) (c : ascii) :
  JSON.span_digits s = (String c ds, rest) →
  ∃ r, s = String c r ∧ is_digit c = true ∧ JSON.span_digits r = (ds, rest).
Proof.
  destruct s as [|c' r]; simpl; [congruence|].
  destruct (is_digit c') eqn:E; [|congruence].
  destruct (JSON.span_digits r) as [ds' rest'] eqn:Er.
  intros [= -> -> ->]. eauto.
Qed.

Lemma span_digits_non_digit (c : ascii) (r : string) :
  is_digit c = false → JSON.span_digits (String c r) = (EmptyString, String c r).
Proof. intros H. simpl. by rewrite H. Qed.

Lemma lex_frac_digit (d : ascii) (r : string) :
  is_digit d = true →
  JSON.lex_frac (String d r) = Some (EmptyString, String d r).
Proof.
  by_cases_on_char d; intros H; try (vm_compute in H; discriminate);
    reflexivity.
Qed.

Lemma lex_exp_digit (d : ascii) (r : string) :
  is_digit d = true → JSON.lex_exp (String d r) = Some (0, String d r).
Proof.
  by_cases_on_char d; intros H; try (vm_compute in H; discriminate);
    reflexivity.
Qed.

Lemma skip_ws_digit (d : ascii) (r : string) :
  is_digit d = true → JSON.skip_ws (String d r) = String d r.
Proof.
  by_cases_on_char d; intros H; try (vm_compute in H; discriminate);
    reflexivity.
Qed.

Lemma lex_frac_dot (r fs rest : string) (f : ascii) :
  JSON.span_digits r = (String f fs, rest) →
  JSON.lex_frac (String "." r) = Some (String f fs, rest).
Proof. intros E. cbn. by rewrite E. Qed.

(** the integer part of a canonical numeral is its whole digit run *)
Lemma lex_int_canonical (c : ascii) (r ds rest : string) :
  is_digit c = true →
  JSON.span_digits r = (ds, rest) →
  canonical_numeral (String c r) = true →
  JSON.lex_int (String c r) = Some (String c ds, rest).
Proof.
  intros Hc Er Hcan. unfold JSON.lex_int.
  destruct (Ascii.eqb c "0") eqn:E0.
  - apply Ascii.eqb_eq in E0. subst c.
    destruct r as [|d r'].
    + simpl in Er. by injection Er as <- <-.
    + simpl in Hcan. apply negb_true_iff in Hcan.
      rewrite (span_digits_non_digit _ _ Hcan) in Er.
      by injection Er as <- <-.
  - rewrite Hc. simpl. by rewrite Hc, Er.
Qed.

Lemma parse_canonical_numeral (value : string) (n : nat) :
  matches_numeral value = true →
  canonical_numeral value = true →
  JSON.parse_value (S n) value = Some (JNum (numeral_value value), EmptyString).
Proof.
  unfold matches_numeral, numeral_value. intros Hm Hcan.
  destruct (JSON.span_digits value) as [ds rest] eqn:E.
  destruct ds as [|c ds]; [discriminate|].
  apply span_digits_head in E as (r & -> & Hc & Er).
  rewrite parse_value_digit, lex_number_digit by done.
  rewrite (lex_int_canonical c r ds rest Hc Er Hcan).
  destruct rest as [|p r2]; [reflexivity|].
  apply andb_true_iff in Hm as [Hp Hfs].
  apply Ascii.eqb_eq in Hp. subst p.
  destruct (JSON.span_digits r2) as [fs rest'] eqn:E2.
  destruct fs as [|f fs]; [discriminate|].
  destruct rest'; [|discriminate].
  cbn [mbind option_bind]. rewrite (lex_frac_dot r2 fs EmptyString f E2).
  reflexivity.
Qed.

Lemma parse_leading_zero (value : string) :
  matches_numeral value = true →
  canonical_numeral value = false →
  JSON.parse value = None.
Proof.
  intros _ Hcan.
  destruct value as [|c [|d r]]; try discriminate.
  simpl in Hcan. apply negb_false_iff, andb_true_iff in Hcan as [H0 Hd].
  apply Ascii.eqb_eq in H0. subst c.
  unfold JSON.parse.
  replace (2 * String.length (String "0" (String d r)) + 2)%nat
    with (S (2 * String.length (String "0" (String d r)) + 1)) by lia.
  rewrite parse_value_digit, lex_number_digit by done.
  cbn [JSON.lex_int Ascii.eqb Bool.eqb mbind option_bind].
  rewrite (lex_frac_digit d r Hd). cbn [mbind option_bind].
  rewrite (lex_exp_digit d r Hd). cbn [mbind option_bind].
  by rewrite (skip_ws_digit d r Hd).
Qed.

Lemma looks_simple_spec (value : string) :
  looks_simple value
  = negb (begins_structured value) && negb (String.eqb value "true")
    && negb (String.eqb value "false") && negb (matches_numeral value).
Proof.
  unfold looks_simple, begins_structured.
  rewrite !negb_orb. reflexivity.
Qed.

(** The numeral [007] matches the numeral pattern of [tryParseValue], but
    it is not a JSON number: the parse fails and the token comes back as a
    string, not as a number. *)
Lemma numeral_with_leading_zero_stays_string :
  matches_numeral "007" = true
  ∧ tryParseValue "007" = JStr "007"
  ∧ ¬ (∃ q, tryParseValue "007" = JNum q).
Proof.
  split; [reflexivity|]. split; [reflexivity|].
  intros [q Hq]. vm_compute in Hq. discriminate.
Qed.

(** C6 (amended). [tryParseValue] is total and returns the token unchanged
    as a string unless it is [true] or [false] (a boolean), matches the
    numeral pattern (a number when its integer part has no superfluous
    leading zero; the unchanged string otherwise), or begins with [{],
    [[] or a double quote (the JSON parse of the token, and the unchanged
    string when that parse fails). *)
Theorem value_coercion (value : string) :
  (begins_structured value = false → value ≠ "true" → value ≠ "false" →
   matches_numeral value = false → tryParseValue value = JStr value)
  ∧ (value = "true" → tryParseValue value = JBool true)
  ∧ (value = "false" → tryParseValue value = JBool false)
  ∧ (matches_numeral value = true →
     tryParseValue value
     = if canonical_numeral value then JNum (numeral_value value)
       else JStr value)
  ∧ (begins_structured value = true →
     tryParseValue value = default (JStr value) (JSON.parse value)).
Proof.
  unfold tryParseValue. rewrite looks_simple_spec.
  split; [|split; [|split; [|split]]].
  - intros -> Ht%String.eqb_neq Hf%String.eqb_neq ->.
    by rewrite Ht, Hf.
  - by intros ->.
  - by intros ->.
  - intros Hm. rewrite Hm, andb_false_r.
    destruct (canonical_numeral value) eqn:Hcan.
    + unfold JSON.parse.
      replace (2 * String.length value + 2)%nat
        with (S (2 * String.length value + 1)) by lia.
      by rewrite (parse_canonical_numeral value _ Hm Hcan).
    + by rewrite (parse_leading_zero value Hm Hcan).
  - by intros ->.
Qed.

Lemma value_coercion_witness :
  tryParseValue "true" = JBool true
  ∧ tryParseValue "42" = JNum (inject_Z 42)
  ∧ tryParseValue (dq "['x','y']") = JArr [JStr "x"; JStr "y"]
  ∧ tryParseValue "plain" = JStr "plain"
  ∧ tryParseValue "{bad" = JStr "{bad"
  ∧ tryParseValue "007" = JStr "007".
Proof.
  split; [|split; [|split; [|split; [|split]]]].
  - destruct (value_coercion "true") as (_ & H & _). by apply H.
  - destruct (value_coercion "42") as (_ & _ & _ & H & _).
    rewrite H by reflexivity. reflexivity.
  - destruct (value_coercion (dq "['x','y']")) as (_ & _ & _ & _ & H).
    rewrite H by reflexivity. reflexivity.
  - destruct (value_coercion "plain") as (H & _).
    apply H; [reflexivity|discriminate..|reflexivity].
  - destruct (value_coercion "{bad") as (_ & _ & _ & _ & H).
    rewrite H by reflexivity. reflexivity.
  - destruct (value_coercion "007") as (_ & _ & _ & H & _).
    rewrite H by reflexivity. reflexivity.
Defined.

(** ** Properties of the registry *)

Section MapLemmas.

Context {V : Type}.
Implicit Types (m : list (string * V)) (k : string) (v : V).

Lemma Map_get_set_eq m k v : Map_get k (Map_set k v m) = Some v.
Proof.
  induction m as [|[k' v'] m IH]; simpl.
  - by rewrite String.eqb_refl.
  - destruct (String.eqb k k') eqn:E; simpl.
    + by rewrite String.eqb_refl.
    + by rewrite E.
Qed.

Lemma Map_get_set_ne m k k' v :
  k' ≠ k → Map_get k' (Map_set k v m) = Map_get k' m.
Proof.
  intros Hne. induction m as [|[k0 v0] m IH]; simpl.
  - by apply String.eqb_neq in Hne as ->.
  - destruct (String.eqb k k0) eqn:E; simpl.
    + apply String.eqb_eq in E. subst k0.
      by apply String.eqb_neq in Hne as ->.
    + by rewrite IH.
Qed.

(** the entries under other keys stay as they are, in their order *)
Lemma Map_set_others m k v :
  filter (fun entry => entry.1 ≠ k) (Map_set k v m)
  = filter (fun entry => entry.1 ≠ k) m.
Proof.
  induction m as [|[k0 v0] m IH]; simpl.
  - by rewrite filter_cons_False by (simpl; auto).
  - destruct (String.eqb k k0) eqn:E.
    + apply String.eqb_eq in E. subst k0.
      by rewrite !filter_cons_False by (simpl; auto).
    + apply String.eqb_neq in E.
      rewrite !filter_cons_True by (simpl; congruence). by rewrite IH.
Qed.

Lemma Map_set_keys m k v :
  fst <$> Map_set k v m
  = if decide (k ∈ fst <$> m) then fst <$> m else (fst <$> m) ++ [k].
Proof.
  induction m as [|[k0 v0] m IH].
  - by rewrite decide_False by apply not_elem_of_nil.
  - cbn [Map_set]. destruct (String.eqb k k0) eqn:E.
    + apply String.eqb_eq in E. subst k0.
      by rewrite decide_True
        by (rewrite fmap_cons; apply elem_of_cons; by left).
    + apply String.eqb_neq in E. rewrite !fmap_cons, IH. cbn [fst].
      destruct (decide (k ∈ fst <$> m)) as [Hin|Hnin].
      * by rewrite decide_True by (apply elem_of_cons; by right).
      * by rewrite decide_False by (intros [?|?]%elem_of_cons; done).
Qed.

Lemma Map_set_NoDup m k v :
  NoDup (fst <$> m) → NoDup (fst <$> Map_set k v m).
Proof.
  intros Hnd. rewrite Map_set_keys. case_decide as Hin; [done|].
  apply NoDup_app. split; [done|]. split.
  - intros x Hx ->%list_elem_of_singleton. done.
  - apply NoDup_singleton.
Qed.

(** with distinct keys, exactly one entry sits under the key just set *)
Lemma Map_set_one m k v :
  NoDup (fst <$> m) →
  filter (fun entry => entry.1 = k) (Map_set k v m) = [(k, v)].
Proof.
  induction m as [|[k0 v0] m IH]; simpl; intros Hnd.
  - by rewrite filter_cons_True.
  - apply NoDup_cons in Hnd as [Hk0 Hnd].
    destruct (String.eqb k k0) eqn:E.
    + apply String.eqb_eq in E. subst k0.
      rewrite filter_cons_True by done. f_equal.
      clear IH. induction m as [|[k1 v1] m IHm]; [done|].
      simpl in Hk0. apply not_elem_of_cons in Hk0 as [Hne Hk0].
      apply NoDup_cons in Hnd as [_ Hnd].
      rewrite filter_cons_False by (simpl; congruence). auto.
    + apply String.eqb_neq in E.
      rewrite filter_cons_False by (simpl; congruence). auto.
Qed.

Lemma Map_set_Forall (P : string * V → Prop) m k v :
  P (k, v) → Forall P m → Forall P (Map_set k v m).
Proof.
  intros Hkv. induction 1 as [|[k0 v0] m H0 Hm IH]; simpl.
  - by repeat constructor.
  - destruct (String.eqb k k0); by constructor.
Qed.

End MapLemmas.

Lemma registry_ok_empty : registry_ok toolRegistry.
Proof. split; constructor. Qed.

Lemma registerTool_ok registry tool options :
  registry_ok registry → registry_ok (registerTool registry tool options).
Proof.
  intros [Hnd Hnames]. split; simpl.
  - by apply Map_set_NoDup.
  - by apply Map_set_Forall.
Qed.

Lemma registerTools_ok registry tools :
  registry_ok registry → registry_ok (registerTools registry tools).
Proof.
  unfold registerTools. revert registry.
  induction tools as [|tool tools IH]; intros registry Hok; simpl; [done|].
  by apply IH, registerTool_ok.
Qed.

Lemma clearRegistry_ok registry : registry_ok (clearRegistry registry).
Proof. split; constructor. Qed.

(** a call of [registerTools] with at least one tool leaves no cached
    filter result *)
Lemma registerTools_clears_cache registry tools :
  tools ≠ [] → filteredCache (registerTools registry tools) = ∅.
Proof.
  unfold registerTools. revert registry.
  induction tools as [|tool tools IH]; intros registry Hne; [done|].
  simpl. destruct tools as [|tool' tools]; [done|]. by apply IH.
Qed.

(** ** Properties of the filter *)

Section Filter.

Variables (config : ResolvedConfig) (options : ToolFilterOptions).

(** the loop over the registrations sorts each of them into one of the
    two lists, keeping the order *)
Lemma filter_loop (registrations : list ToolRegistration)
    (includedTools : list MCPTool) (excluded : list Exclusion.t) :
  fold_left (filterStep config options) registrations (includedTools, excluded)
  = (includedTools
       ++ (tool <$> filter (fun r => is_included config options r)
                      registrations),
     excluded ++ omap (generic_exclusion config options) registrations).
Proof.
  revert includedTools excluded.
  induction registrations as [|r rs IH]; intros inc exc.
  { simpl. by rewrite !app_nil_r. }
  cbn [fold_left omap list_omap].
  assert (Hstep : filterStep config options (inc, exc) r
    = match shouldIncludeTool (tool r) r config options with
      | IsTrue => (inc ++ [tool r], exc)
      | Reason why =>
          (inc, exc ++ [{| Exclusion.tool := name (tool r);
                           Exclusion.reason := why |}])
      end) by reflexivity.
  rewrite Hstep. clear Hstep.
  unfold generic_exclusion at 1.
  destruct (shouldIncludeTool (tool r) r config options) as [|why] eqn:E.
  - rewrite filter_cons_True
      by (cbv beta; unfold is_included; rewrite E; exact I).
    rewrite IH, fmap_cons, <- app_assoc. reflexivity.
  - rewrite filter_cons_False
      by (cbv beta; unfold is_included; rewrite E; exact id).
    rewrite IH, <- app_assoc. reflexivity.
Qed.

Lemma generic_exclusion_names (registrations : list ToolRegistration) :
  Exclusion.tool <$> omap (generic_exclusion config options) registrations
  = (fun r => name (tool r))
      <$> filter (fun r => ¬ is_included config options r) registrations.
Proof.
  induction registrations as [|r rs IH]; [done|].
  cbn [omap list_omap]. unfold generic_exclusion at 1.
  destruct (shouldIncludeTool (tool r) r config options) as [|why] eqn:E.
  - rewrite filter_cons_False; [done|].
    cbv beta. unfold is_included. rewrite E. intros H. exact (H I).
  - rewrite filter_cons_True; [by rewrite !fmap_cons, IH|].
    cbv beta. unfold is_included. rewrite E. exact id.
Qed.

(** What a call that misses the cache returns. *)
Lemma filterTools_miss registry :
  cache_miss registry config options →
  let result := (filterTools registry config options).1 in
  let E := eligible registry config options in
  let X := generic_exclusions registry config options in
  Result.tools result
  = (match availableTools config with
     | [] => E
     | _ :: _ => filter (fun t => name t ∈ availableTools config) E
     end)
  ∧ Result.excluded result
    = (match availableTools config with
       | [] => X
       | _ :: _ =>
           X ++ (not_requested
                   <$> filter (fun t => name t ∉ availableTools config) E)
       end)
  ∧ Result.summary result
    = {| Summary.total := Z.of_nat (length (tools registry));
         Summary.included := Z.of_nat (length (Result.tools result));
         Summary.excluded := Z.of_nat (length (Result.excluded result)) |}
  ∧ (filterTools registry config options).2
    = {| tools := tools registry;
         filteredCache :=
           <[createFilterCacheKey config options := Result.tools result]>
             (filteredCache registry) |}.
Proof.
  unfold cache_miss. intros Hmiss. unfold filterTools. rewrite Hmiss.
  rewrite filter_loop. simpl app.
  fold (allRegistrations registry).
  fold (eligible registry config options).
  fold (generic_exclusions registry config options).
  destruct (availableTools config) as [|t ts] eqn:Ea; simpl.
  { repeat split; try done.
    unfold allRegistrations. by rewrite length_fmap. }
  assert (Hin : filter (fun tool : MCPTool =>
                  name tool ∈ (list_to_set (t :: ts) : gset string))
                  (eligible registry config options)
                = filter (fun tool => name tool ∈ t :: ts)
                    (eligible registry config options)).
  { apply list_filter_iff. intros x. apply elem_of_list_to_set. }
  assert (Hout : filter (fun tool : MCPTool =>
                   name tool ∉ (list_to_set (t :: ts) : gset string))
                   (eligible registry config options)
                 = filter (fun tool => name tool ∉ t :: ts)
                     (eligible registry config options)).
  { apply list_filter_iff. intros x. by rewrite elem_of_list_to_set. }
  simpl in Hin, Hout. rewrite Hin, Hout.
  repeat split; try done.
  unfold allRegistrations. by rewrite length_fmap.
Qed.

(** What a call that is answered from the cache returns. *)
Lemma filterTools_hit registry cached :
  filteredCache registry !! createFilterCacheKey config options = Some cached →
  filterTools registry config options
  = (createFilterResult cached registry, registry).
Proof. intros Hhit. unfold filterTools. by rewrite Hhit. Qed.

(** a filter call never touches the tool map *)
Lemma filterTools_tools registry :
  tools (filterTools registry config options).2 = tools registry.
Proof.
  unfold filterTools.
  destruct (filteredCache registry !! _); [done|].
  destruct (fold_left _ _ _) as [inc exc].
  by destruct (availableTools config).
Qed.

Lemma filterTools_ok registry :
  registry_ok registry →
  registry_ok (filterTools registry config options).2.
Proof. unfold registry_ok. by rewrite filterTools_tools. Qed.

(** after any call, the result of that call is cached under its key *)
Lemma filterTools_caches registry :
  filteredCache (filterTools registry config options).2
    !! createFilterCacheKey config options
  = Some (Result.tools (filterTools registry config options).1).
Proof.
  destruct (filteredCache registry !! createFilterCacheKey config options)
    as [cached|] eqn:E.
  - by rewrite (filterTools_hit _ _ E).
  - destruct (filterTools_miss registry E) as (_ & _ & _ & ->).
    simpl. apply lookup_insert_eq.
Qed.

(** the names of a cold result are the registered names, rearranged *)
Lemma filterTools_miss_names registry :
  cache_miss registry config options →
  result_names (filterTools registry config options).1
  ≡ₚ (fun r => name (tool r)) <$> allRegistrations registry.
Proof.
  intros Hmiss. destruct (filterTools_miss registry Hmiss) as (Ht & Hx & _).
  unfold result_names. rewrite Ht, Hx. clear Ht Hx.
  assert (Hsplit :
    (name <$> eligible registry config options)
    ++ (Exclusion.tool <$> generic_exclusions registry config options)
    ≡ₚ (fun r => name (tool r)) <$> allRegistrations registry).
  { unfold eligible, generic_exclusions.
    rewrite generic_exclusion_names, <- list_fmap_compose, <- fmap_app.
    apply fmap_Permutation.
    apply (filter_app_complement (fun r => is_included config options r)). }
  destruct (availableTools config) as [|t ts]; [exact Hsplit|].
  rewrite fmap_app, <- list_fmap_compose.
  change (Exclusion.tool ∘ not_requested) with name.
  rewrite <- Hsplit.
  rewrite (Permutation_app_comm
             (Exclusion.tool <$> generic_exclusions registry config options)).
  rewrite app_assoc. apply Permutation_app_tail.
  rewrite <- fmap_app. apply fmap_Permutation.
  apply (filter_app_complement (fun tl => name tl ∈ t :: ts)).
Qed.

(** a filter call keeps what the cache already holds *)
Lemma filterTools_keeps_cache registry key cached :
  filteredCache registry !! key = Some cached →
  filteredCache (filterTools registry config options).2 !! key = Some cached.
Proof.
  intros Hkey.
  destruct (filteredCache registry !! createFilterCacheKey config options)
    as [other|] eqn:E.
  - by rewrite (filterTools_hit _ _ E).
  - destruct (filterTools_miss registry E) as (_ & _ & _ & ->). simpl.
    rewrite lookup_insert_ne; [done|]. intros <-. congruence.
Qed.

End Filter.

Lemma filter_calls_keep registry calls key cached :
  filteredCache registry !! key = Some cached →
  filteredCache (filter_calls registry calls) !! key = Some cached
  ∧ tools (filter_calls registry calls) = tools registry.
Proof.
  unfold filter_calls. revert registry.
  induction calls as [|[c o] calls IH]; intros registry Hkey; [done|].
  cbn [fold_left fst snd].
  destruct (IH (filterTools registry c o).2) as [H1 H2].
  { by apply filterTools_keeps_cache. }
  split; [exact H1|]. rewrite H2. apply filterTools_tools.
Qed.

Lemma registered_names registry :
  registry_ok registry →
  (fun r => name (tool r)) <$> allRegistrations registry
  = fst <$> tools registry.
Proof.
  intros [_ Hnames]. unfold allRegistrations.
  induction Hnames as [|[k r] m Hk Hm IH]; [done|].
  rewrite !fmap_cons. simpl in Hk |- *. rewrite <- Hk. f_equal. exact IH.
Qed.

Lemma NoDup_once (l : list string) (n : string) :
  NoDup l → n ∈ l → length (filter (fun x => x = n) l) = 1%nat.
Proof.
  induction 1 as [|x l Hx Hnd IH]; intros Hin.
  { by apply elem_of_nil in Hin. }
  apply elem_of_cons in Hin as [->|Hin].
  - rewrite filter_cons_True by done. simpl. f_equal.
    apply length_zero_iff_nil. apply elem_of_nil_inv.
    intros y [-> Hy]%list_elem_of_filter. done.
  - rewrite filter_cons_False by (intros ->; done). auto.
Qed.


(** the counts of a cold result add up to the size of the registry *)
Lemma filterTools_miss_counts registry config options :
  cache_miss registry config options →
  let result := (filterTools registry config options).1 in
  (length (Result.tools result) + length (Result.excluded result))%nat
  = length (tools registry).
Proof.
  intros Hmiss result.
  pose proof (filterTools_miss_names config options registry Hmiss) as Hperm.
  apply Permutation_length in Hperm. fold result in Hperm.
  unfold result_names, allRegistrations in Hperm.
  by rewrite length_app, !length_fmap in Hperm.
Qed.

(** every registry the exported functions produce is well formed *)
Lemma reachable_ok registry : reachable registry → registry_ok registry.
Proof.
  induction 1.
  - apply registry_ok_empty.
  - by apply registerTool_ok.
  - by apply registerTools_ok.
  - apply clearRegistry_ok.
  - by apply filterTools_ok.
Qed.

(** *** Registration *)

(** C7. [registerTool] stores the registration under the tool's name,
    replacing a prior registration of that name, so exactly one entry
    holds that name; it leaves the registrations of all other names as
    they were and in their order, and it leaves the filter cache empty. *)
Theorem registration_replaces_and_invalidates
    (registry : ToolRegistry) (tool : MCPTool) (options : RegistrationOptions) :
  registry_ok registry →
  let registry' := registerTool registry tool options in
  let registration := stored_registration tool options in
  Map_get (name tool) (tools registry') = Some registration
  ∧ filter (fun entry => entry.1 = name tool) (tools registry')
    = [(name tool, registration)]
  ∧ filteredCache registry' = ∅
  ∧ (∀ other, other ≠ name tool →
       Map_get other (tools registry') = Map_get other (tools registry))
  ∧ filter (fun entry => entry.1 ≠ name tool) (tools registry')
    = filter (fun entry => entry.1 ≠ name tool) (tools registry)
  ∧ registry_ok registry'.
Proof.
  intros Hok registry' registration. pose proof Hok as [Hnd _].
  split; [apply Map_get_set_eq|].
  split; [by apply Map_set_one|].
  split; [reflexivity|].
  split; [intros other Hne; by apply Map_get_set_ne|].
  split; [apply Map_set_others|].
  by apply registerTool_ok.
Qed.

(** the example of the specification: registering [x] twice leaves one
    registration of [x], with the second description, and an empty cache *)
Lemma registration_replaces_and_invalidates_witness :
  let once :=
    (filterTools (registerTool toolRegistry (plain_tool "x" "first")
                    no_registration_options)
       (only []) no_filter_options).2 in
  let twice := registerTool once (plain_tool "x" "second")
                 no_registration_options in
  filteredCache once ≠ ∅
  ∧ tools twice
    = [("x", stored_registration (plain_tool "x" "second")
               no_registration_options)]
  ∧ filteredCache twice = ∅.
Proof.
  intros once twice.
  assert (Hok : registry_ok once)
    by (apply (bool_decide_unpack _); vm_compute; exact I).
  destruct (registration_replaces_and_invalidates once
              (plain_tool "x" "second") no_registration_options Hok)
    as (_ & Hone & Hcache & _).
  split; [|split].
  - vm_compute. discriminate.
  - vm_compute. reflexivity.
  - exact Hcache.
Defined.

(** *** Allowlist narrowing *)

(** With two enabled tools [a] and [b] and [availableTools = ["a"]]: the
    cold call excludes [b] with the reason "Not in requested tools list",
    which is not the reason the claim quotes, and the same call repeated
    is answered from the cache with no exclusion entry at all. *)
Lemma allowlist_exclusion_entry_differs :
  let cold := filterTools two_tools (only ["a"]) no_filter_options in
  let warm := filterTools cold.2 (only ["a"]) no_filter_options in
  Result.tools cold.1 = [tool_a]
  ∧ Result.excluded cold.1
    = [{| Exclusion.tool := "b";
          Exclusion.reason := "Not in requested tools list" |}]
  ∧ ¬ ({| Exclusion.tool := "b";
          Exclusion.reason := "not in requested tools list" |}
       ∈ Result.excluded cold.1)
  ∧ Result.tools warm.1 = [tool_a]
  ∧ Result.excluded warm.1 = [].
Proof.
  split; [reflexivity|]. split; [reflexivity|].
  split; [|split; reflexivity].
  intros Hin. vm_compute in Hin.
  apply list_elem_of_singleton in Hin. discriminate.
Qed.

(** C3 (amended). With a non-empty [availableTools]: a call that misses
    the cache returns the registry-eligible tools whose name is in that
    list, and its exclusion list is the exclusions of the generic checks
    followed by one entry, with the reason "Not in requested tools list",
    for each eligible tool whose name is not in the list; a call answered
    from the cache returns the cached tools and no exclusion entry. *)
Theorem allowlist_narrowing
    (registry : ToolRegistry) (config : ResolvedConfig)
    (options : ToolFilterOptions) :
  availableTools config ≠ [] →
  let result := (filterTools registry config options).1 in
  let E := eligible registry config options in
  (cache_miss registry config options →
   Result.tools result = filter (fun t => name t ∈ availableTools config) E
   ∧ Result.excluded result
     = generic_exclusions registry config options
       ++ ((fun t => {| Exclusion.tool := name t;
                        Exclusion.reason := "Not in requested tools list" |})
             <$> filter (fun t => name t ∉ availableTools config) E))
  ∧ (∀ cached,
       filteredCache registry !! createFilterCacheKey config options
       = Some cached →
       Result.tools result = cached ∧ Result.excluded result = []).
Proof.
  intros Hne result E. split.
  - intros Hmiss.
    destruct (filterTools_miss config options registry Hmiss) as (Ht & Hx & _).
    fold result in Ht, Hx.
    destruct (availableTools config); [done|]. by rewrite Ht, Hx.
  - intros cached Hhit. unfold result.
    by rewrite (filterTools_hit _ _ _ _ Hhit).
Qed.

Lemma allowlist_narrowing_witness :
  let cold := filterTools two_tools (only ["a"]) no_filter_options in
  let warm := filterTools cold.2 (only ["a"]) no_filter_options in
  (Result.tools cold.1 = [tool_a]
   ∧ Result.excluded cold.1
     = [{| Exclusion.tool := "b";
           Exclusion.reason := "Not in requested tools list" |}])
  ∧ (Result.tools warm.1 = [tool_a] ∧ Result.excluded warm.1 = []).
Proof.
  intros cold warm. split.
  - destruct (allowlist_narrowing two_tools (only ["a"]) no_filter_options)
      as [Hmiss _]; [discriminate|].
    destruct Hmiss as [Ht Hx]; [reflexivity|].
    unfold cold. split; [rewrite Ht|rewrite Hx]; reflexivity.
  - destruct (allowlist_narrowing cold.2 (only ["a"]) no_filter_options)
      as [_ Hhit]; [discriminate|].
    unfold warm. apply (Hhit [tool_a]). vm_compute. reflexivity.
Defined.

(** *** Empty allowlist *)

(** The tool [a] is registered under the condition [debug === true]. A
    call with [debug = false] caches the empty result; the next call, with
    [debug = true] and the same (empty) [availableTools], has the same
    cache key and is answered with that empty list, although [a] is
    eligible for it. *)
Lemma empty_allowlist_stale_cache :
  let first := filterTools debug_only (debug_config false) no_filter_options in
  let second := filterTools first.2 (debug_config true) no_filter_options in
  availableTools (debug_config true) = []
  ∧ eligible first.2 (debug_config true) no_filter_options = [tool_a]
  ∧ Result.tools second.1 = [].
Proof. vm_compute. done. Qed.

(** C4 (amended). With an empty [availableTools]: a call that misses the
    cache returns exactly the registry-eligible tools, and its exclusion
    list holds the exclusions of the generic checks and nothing else; a
    call answered from the cache returns the list cached under its key. *)
Theorem empty_list_no_narrowing
    (registry : ToolRegistry) (config : ResolvedConfig)
    (options : ToolFilterOptions) :
  availableTools config = [] →
  let result := (filterTools registry config options).1 in
  (cache_miss registry config options →
   Result.tools result = eligible registry config options
   ∧ Result.excluded result = generic_exclusions registry config options)
  ∧ (∀ cached,
       filteredCache registry !! createFilterCacheKey config options
       = Some cached →
       Result.tools result = cached ∧ Result.excluded result = []).
Proof.
  intros Hempty result. split.
  - intros Hmiss.
    destruct (filterTools_miss config options registry Hmiss) as (Ht & Hx & _).
    fold result in Ht, Hx. by rewrite Hempty in Ht, Hx.
  - intros cached Hhit. unfold result.
    by rewrite (filterTools_hit _ _ _ _ Hhit).
Qed.

Lemma empty_list_no_narrowing_witness :
  let cold := filterTools two_tools (only []) no_filter_options in
  let warm := filterTools cold.2 (only []) no_filter_options in
  (Result.tools cold.1 = [tool_a; tool_b] ∧ Result.excluded cold.1 = [])
  ∧ (Result.tools warm.1 = [tool_a; tool_b] ∧ Result.excluded warm.1 = []).
Proof.
  intros cold warm. split.
  - destruct (empty_list_no_narrowing two_tools (only []) no_filter_options)
      as [Hmiss _]; [reflexivity|].
    destruct Hmiss as [Ht Hx]; [reflexivity|].
    unfold cold. split; [rewrite Ht|rewrite Hx]; reflexivity.
  - destruct (empty_list_no_narrowing cold.2 (only []) no_filter_options)
      as [_ Hhit]; [reflexivity|].
    unfold warm. apply (Hhit [tool_a; tool_b]). vm_compute. reflexivity.
Defined.

(** *** Cache coherence *)

(** C5. Of two calls with the same configuration and options, with no
    registration in between (only, possibly, other filter calls), the
    second is answered from the cache: its result is built from the list
    the first call left under the key, its tools and its summary counts
    are those of the first call, its exclusion list is empty, its counts
    are the registry size, the length of the cached list and their
    difference, and it changes nothing. *)
Theorem cache_coherence
    (registry : ToolRegistry) (config : ResolvedConfig)
    (options : ToolFilterOptions)
    (between : list (ResolvedConfig * ToolFilterOptions)) :
  let first := filterTools registry config options in
  let before := filter_calls first.2 between in
  let second := filterTools before config options in
  filteredCache before !! createFilterCacheKey config options
  = Some (Result.tools first.1)
  ∧ second.1 = createFilterResult (Result.tools first.1) before
  ∧ Result.tools second.1 = Result.tools first.1
  ∧ Result.summary second.1 = Result.summary first.1
  ∧ Result.excluded second.1 = []
  ∧ Result.summary second.1
    = {| Summary.total := Z.of_nat (length (tools registry));
         Summary.included := Z.of_nat (length (Result.tools first.1));
         Summary.excluded :=
           Z.of_nat (length (tools registry))
           - Z.of_nat (length (Result.tools first.1)) |}
  ∧ second.2 = before.
Proof.
  intros first before second.
  pose proof (filterTools_caches config options registry) as Hfirst.
  fold first in Hfirst.
  destruct (filter_calls_keep first.2 between _ _ Hfirst) as [Hcached Hsame].
  fold before in Hcached, Hsame.
  assert (Hsecond : second = (createFilterResult (Result.tools first.1)
                                before, before)).
  { unfold second. by apply filterTools_hit. }
  assert (Htools : tools before = tools registry).
  { rewrite Hsame. unfold first. apply filterTools_tools. }
  rewrite Hsecond. unfold createFilterResult. simpl. rewrite Htools.
  split; [exact Hcached|]. split; [reflexivity|]. split; [reflexivity|].
  split; [|split; [reflexivity|split; reflexivity]].
  destruct (filteredCache registry !! createFilterCacheKey config options)
    as [cached|] eqn:E.
  - unfold first. by rewrite (filterTools_hit _ _ _ _ E).
  - pose proof (filterTools_miss_counts registry config options E) as Hn.
    destruct (filterTools_miss config options registry E) as (_ & _ & Hs & _).
    cbv zeta in Hn, Hs. fold first in Hn, Hs. rewrite Hs. f_equal. lia.
Qed.

Example repeated_call_two_tools :
  let first := filterTools two_tools (only ["a"]) no_filter_options in
  let second := filterTools first.2 (only ["a"]) no_filter_options in
  Result.tools second.1 = [tool_a]
  ∧ Result.excluded first.1 ≠ [] ∧ Result.excluded second.1 = []
  ∧ Result.summary second.1
    = {| Summary.total := 2; Summary.included := 1; Summary.excluded := 1 |}.
Proof. vm_compute. repeat split; done. Qed.

(** *** Condition evaluation *)




(** *** Partition of the registry *)

(** C10. On a registry built by registrations, a call that misses the
    cache mentions every registered tool name exactly once, among the
    returned tools or among the exclusions; and in every call, cold or
    cached, the included and excluded counts add up to the total. *)
Theorem partition_invariant
    (registry : ToolRegistry) (config : ResolvedConfig)
    (options : ToolFilterOptions) :
  registry_ok registry →
  let result := (filterTools registry config options).1 in
  (cache_miss registry config options →
   result_names result ≡ₚ fst <$> tools registry
   ∧ ∀ n, n ∈ fst <$> tools registry →
          length (filter (fun x => x = n) (result_names result)) = 1%nat)
  ∧ Summary.included (Result.summary result)
    + Summary.excluded (Result.summary result)
    = Summary.total (Result.summary result).
Proof.
  intros Hok result. split.
  - intros Hmiss.
    pose proof (filterTools_miss_names config options registry Hmiss) as Hperm.
    rewrite (registered_names registry Hok) in Hperm. fold result in Hperm.
    split; [exact Hperm|].
    intros n Hn. apply NoDup_once.
    + rewrite Hperm. apply Hok.
    + by rewrite Hperm.
  - destruct (filteredCache registry !! createFilterCacheKey config options)
      as [cached|] eqn:E.
    + unfold result. rewrite (filterTools_hit _ _ _ _ E). simpl. lia.
    + pose proof (filterTools_miss_counts registry config options E) as Hn.
      destruct (filterTools_miss config options registry E) as (_ & _ & Hs & _).
      cbv zeta in Hn, Hs. fold result in Hn, Hs. rewrite Hs. simpl. lia.
Qed.

Lemma partition_invariant_witness :
  let result := (filterTools two_tools (only ["a"]) no_filter_options).1 in
  result_names result ≡ₚ ["a"; "b"]
  ∧ Summary.included (Result.summary result)
    + Summary.excluded (Result.summary result)
    = Summary.total (Result.summary result).
Proof.
  assert (Hok : registry_ok two_tools)
    by (apply (bool_decide_unpack _); vm_compute; exact I).
  destruct (partition_invariant two_tools (only ["a"]) no_filter_options Hok)
    as [Hmiss Hsum].
  split; [|exact Hsum].
  apply Hmiss. reflexivity.
Defined.

(** *** The examples of the specification *)

(** exclusion audit on a cold cache *)
Example exclusion_audit_cold :
  (filterTools a_enabled_b_disabled (only []) no_filter_options).1
  = {| Result.tools := [tool_a];
       Result.excluded :=
         [{| Exclusion.tool := "b";
             Exclusion.reason := "Tool is disabled by default" |}];
       Result.summary :=
         {| Summary.total := 2; Summary.included := 1;
            Summary.excluded := 1 |} |}.
Proof. reflexivity. Qed.

(** a later registration under the same name replaces the earlier one *)
Example registerTools_replaces :
  getAllTools (registerTools toolRegistry
                 [plain_tool "x" "first"; tool_a; plain_tool "x" "second"])
  = [plain_tool "x" "second"; tool_a].
Proof. reflexivity. Qed.

(** a request restricted to [a] sees [a] only; an unrestricted one sees
    the tools of the fallback list that are registered *)
Example request_tools_to_use :
  request_tools two_tools to_use_headers default_tools_env = Some ["a"]
  ∧ request_tools (registerTool two_tools (plain_tool "add" "adds")
                     no_registration_options) [] JNull
    = Some ["add"].
Proof. vm_compute. done. Qed.

(** ** Further properties of the resolver *)

#[local] Set Warnings "-clear-no-such-hyp".

(** *** Key normalization *)

Lemma lower_of_upper (l : ascii) :
  is_lower l = true →
  is_upper (toUpperCase_az l) = true
  ∧ ascii_of_N (code (toUpperCase_az l) + 32) = l.
Proof. by_cases_on_char l; vm_compute; intros H; (done || discriminate). Qed.

Lemma hyphen_not_upper : is_upper "-" = false.
Proof. reflexivity. Qed.

Lemma camelToKebab_kebab_upto (n : nat) (s : string) :
  (String.length s <= n)%nat →
  no_upper s = true →
  camelToKebab (kebabToCamelCase s) = s.
Proof.
  revert s. induction n as [|n IH]; intros s Hn Hs.
  { destruct s; [done|simpl in Hn; lia]. }
  destruct s as [|c rest]; [done|].
  simpl in Hs. apply andb_true_iff in Hs as [Hc Hrest].
  apply negb_true_iff in Hc.
  unfold kebabToCamelCase in *. cbn [replace_sep_letter].
  destruct (Ascii.eqb c "-") eqn:Ec.
  - destruct rest as [|l rest'].
    + cbn [camelToKebab]. by rewrite Hc.
    + destruct (is_lower l) eqn:El.
      * destruct (lower_of_upper l El) as [Hu Hl].
        cbn [camelToKebab]. rewrite Hu, Hl.
        apply Ascii.eqb_eq in Ec. subst c.
        simpl in Hrest. apply andb_true_iff in Hrest as [_ Hrest'].
        rewrite IH; [done| simpl in Hn |- *; lia | done].
      * cbn [camelToKebab]. rewrite Hc.
        rewrite IH; [done| simpl in Hn |- *; lia | done].
  - cbn [camelToKebab]. rewrite Hc.
    rewrite IH; [done| simpl in Hn |- *; lia | done].
Qed.

Lemma camelToKebab_kebab (s : string) :
  no_upper s = true → camelToKebab (kebabToCamelCase s) = s.
Proof. apply (camelToKebab_kebab_upto (String.length s)). lia. Qed.

(** X1. Two different header names (in lower case, as [Headers] yields
    them) never normalize to the same configuration key. *)
Theorem kebabToCamelCase_injective (a b : string) :
  no_upper a = true → no_upper b = true → a ≠ b →
  kebabToCamelCase a ≠ kebabToCamelCase b.
Proof.
  intros Ha Hb Hne E. apply Hne.
  rewrite <- (camelToKebab_kebab a Ha), <- (camelToKebab_kebab b Hb).
  by rewrite E.
Qed.

Lemma kebabToCamelCase_injective_witness :
  kebabToCamelCase "api-url" ≠ kebabToCamelCase "apiurl".
Proof.
  apply kebabToCamelCase_injective; [reflexivity|reflexivity|discriminate].
Defined.

(** a string in which no hyphen is followed by a lower-case letter is
    left as it is *)
Lemma kebab_fixed_upto (n : nat) (s : string) :
  (String.length s <= n)%nat →
  has_sep_letter "-" s = false → kebabToCamelCase s = s.
Proof.
  revert s. induction n as [|n IH]; intros s Hn Hs.
  { destruct s; [done|simpl in Hn; lia]. }
  destruct s as [|c rest]; [done|].
  unfold kebabToCamelCase in *. cbn [replace_sep_letter].
  assert (Hrest : replace_sep_letter "-" rest = rest).
  { apply IH; [simpl in Hn |- *; lia|].
    destruct rest as [|l rest']; [done|].
    cbn [has_sep_letter] in Hs. by apply orb_false_iff in Hs as [_ ?]. }
  destruct (Ascii.eqb c "-") eqn:Ec; [|by rewrite Hrest].
  destruct rest as [|l rest']; [done|].
  cbn [has_sep_letter] in Hs. apply orb_false_iff in Hs as [Hcl _].
  rewrite Ec in Hcl. simpl in Hcl. rewrite Hcl. by rewrite Hrest.
Qed.

(** X2. Normalizing a key twice is normalizing it once: a key already in
    camel case passes unchanged. *)
Theorem kebabToCamelCase_idempotent (s : string) :
  kebabToCamelCase (kebabToCamelCase s) = kebabToCamelCase s.
Proof.
  apply (kebab_fixed_upto (String.length (kebabToCamelCase s))); [lia|].
  apply (kebab_no_sep_letter_upto (String.length s)). lia.
Qed.

(** *** Extraction never stores [undefined] *)

Lemma parse_value_defined (n : nat) (s rest : string) (v : JsValue) :
  JSON.parse_value n s = Some (v, rest) → is_defined v = true.
Proof.
  destruct n as [|n]; [done|]. cbn [JSON.parse_value].
  destruct (JSON.skip_ws s) as [|c r]; [done|].
  repeat match goal with
         | |- context [if ?b then _ else _] => destruct b
         end;
    intros H; repeat case_match; simplify_option_eq;
    repeat match goal with p : (_ * _)%type |- _ => destruct p end;
    simplify_eq; done.
Qed.

Lemma normalize_defined (v : JsValue) :
  is_defined (JSON.normalize v) = is_defined v.
Proof. by destruct v. Qed.

Lemma JSON_parse_defined (text : string) (v : JsValue) :
  JSON.parse text = Some v → is_defined v = true.
Proof.
  unfold JSON.parse. intros H.
  destruct (JSON.parse_value _ text) as [[v0 rest]|] eqn:E; [|done].
  simpl in H. destruct (JSON.skip_ws rest); [|done].
  injection H as <-. rewrite normalize_defined.
  by eapply parse_value_defined.
Qed.

Lemma tryParseValue_defined (value : string) :
  is_defined (tryParseValue value) = true.
Proof.
  unfold tryParseValue. destruct (looks_simple value); [done|].
  destruct (JSON.parse value) eqn:E; [|done].
  by eapply JSON_parse_defined.
Qed.

Lemma store_header_insert (config : FlexibleConfig) (name value : string) :
  store_header config (name, value)
  = <[header_key name := header_value name value]> config.
Proof. reflexivity. Qed.

(** Without a header whose key is [__proto__], the extraction writes
    one own property per header and leaves the prototype alone. *)
Lemma headerStep_ordinary (headers : Headers) (config : JsObject) :
  "__proto__" ∉ header_key <$> headers.*1 →
  fold_left headerStep headers config
  = {| own := fold_left store_header headers (own config);
       proto := proto config |}.
Proof.
  revert config.
  induction headers as [|[name value] headers IH]; intros config Hk.
  { by destruct config. }
  cbn [fold_left]. rewrite !fmap_cons in Hk. cbn [fst] in Hk.
  apply not_elem_of_cons in Hk as [Hne Hk].
  rewrite IH by done. rewrite headerStep_assign.
  by rewrite obj_assign_ordinary.
Qed.

Lemma extractHeaderConfig_ordinary (headers : Headers) :
  "__proto__" ∉ header_key <$> headers.*1 →
  extractHeaderConfig headers
  = plain (fold_left store_header headers ∅).
Proof. intros Hk. unfold extractHeaderConfig. by rewrite headerStep_ordinary. Qed.

(** an assignment never removes an own property *)
Lemma obj_assign_own_kept (key k : string) (v : JsValue) (o : JsObject) :
  is_Some (own o !! k) → is_Some (own (obj_assign key v o) !! k).
Proof.
  intros Hk. destruct (decide (k = key)) as [->|Hne].
  - unfold obj_assign. destruct (_ && _ && _ && _); [by destruct v|].
    cbn [own]. rewrite lookup_insert_eq. by eexists.
  - by rewrite obj_assign_own_ne.
Qed.

Lemma header_key_kept (headers : Headers) (config : JsObject) (k : string) :
  is_Some (own config !! k) →
  is_Some (own (fold_left headerStep headers config) !! k).
Proof.
  revert config.
  induction headers as [|[name value] headers IH]; intros config Hk; [done|].
  cbn [fold_left]. apply IH. rewrite headerStep_assign.
  by apply obj_assign_own_kept.
Qed.

(** every header whose key is not [__proto__] leaves an own property
    under its key *)
Lemma header_key_stored (headers : Headers) (config : JsObject)
    (name value : string) :
  (name, value) ∈ headers → header_key name ≠ "__proto__" →
  is_Some (own (fold_left headerStep headers config) !! header_key name).
Proof.
  revert config.
  induction headers as [|entry headers IH]; intros config Hin Hne.
  { by apply elem_of_nil in Hin. }
  cbn [fold_left]. apply elem_of_cons in Hin as [<-|Hin]; [|by apply IH].
  apply header_key_kept. rewrite headerStep_assign.
  rewrite obj_assign_own_eq by done. by eexists.
Qed.

Lemma header_value_defined (name value : string) :
  is_defined (header_value name value) = true.
Proof.
  unfold header_value. destruct (String.eqb name "to-use").
  - destruct (JSON.parse value) eqn:E; [|done].
    by eapply JSON_parse_defined.
  - apply tryParseValue_defined.
Qed.

Lemma all_defined_insert (config : FlexibleConfig) k v :
  is_defined v = true → all_defined config → all_defined (<[k := v]> config).
Proof.
  intros Hv Hc k' v' [[-> <-]|[_ H]]%lookup_insert_Some; [done|].
  by eapply Hc.
Qed.

Lemma obj_assign_defined (key : string) (v : JsValue) (o : JsObject) :
  is_defined v = true → all_defined (own o) →
  all_defined (own (obj_assign key v o)).
Proof.
  intros Hv Hc. unfold obj_assign.
  destruct (_ && _ && _ && _); [by destruct v|].
  cbn [own]. by apply all_defined_insert.
Qed.

Lemma extractHeaderConfig_defined (headers : Headers) :
  all_defined (own (extractHeaderConfig headers)).
Proof.
  unfold extractHeaderConfig.
  assert (H : ∀ config, all_defined (own config) →
                all_defined (own (fold_left headerStep headers config))).
  { induction headers as [|[name value] headers IH]; intros config Hc;
      [done|].
    cbn [fold_left]. apply IH. rewrite headerStep_assign.
    by apply obj_assign_defined, Hc; apply header_value_defined. }
  apply H. intros k v Hk. cbn in Hk. by rewrite lookup_empty in Hk.
Qed.

Lemma envStep_insert (config : FlexibleConfig) (name value : string) :
  envStep config (name, JStr value)
  = <[upperCaseToCamelCase name := env_value name value]> config.
Proof.
  unfold envStep, env_value.
  destruct (String.eqb name "DEFAULT_TOOLS" || endsWith "_TOOLS" name);
    [|done].
  by destruct (JSON.parse value).
Qed.

Lemma env_value_defined (name value : string) :
  is_defined (env_value name value) = true.
Proof.
  unfold env_value.
  destruct (String.eqb name "DEFAULT_TOOLS" || endsWith "_TOOLS" name).
  - destruct (JSON.parse value) eqn:E; [|done].
    by eapply JSON_parse_defined.
  - apply tryParseValue_defined.
Qed.

Lemma envStep_defined (config : FlexibleConfig) (entry : string * JsValue) :
  all_defined config → all_defined (envStep config entry).
Proof.
  destruct entry as [name v]. intros Hc.
  destruct v; try exact Hc.
  rewrite envStep_insert.
  by apply all_defined_insert, Hc; apply env_value_defined.
Qed.

Lemma extractEnvConfig_defined (env : JsValue) :
  all_defined (extractEnvConfig env).
Proof.
  assert (Hempty : all_defined (∅ : FlexibleConfig)).
  { intros k v Hk. by rewrite lookup_empty in Hk. }
  unfold extractEnvConfig.
  destruct (negb (truthy env) || negb (typeof_object env)); [done|].
  generalize (Object_entries env). intros entries.
  generalize dependent (∅ : FlexibleConfig).
  induction entries as [|entry entries IH]; intros config Hc; [done|].
  cbn [fold_left]. by apply IH, envStep_defined.
Qed.

Lemma defaultConfig_defined : all_defined getDefaultConfig.
Proof.
  unfold getDefaultConfig, defaultConfig. cbn [list_to_map foldr].
  intros k v H.
  repeat (apply lookup_insert_Some in H as [[_ <-]|[_ H]]; [done|]).
  by rewrite lookup_empty in H.
Qed.

Lemma defined_in_all_defined (config : FlexibleConfig) (k : string) :
  all_defined config → defined_in config k = config !! k.
Proof.
  intros Hc. unfold defined_in.
  destruct (config !! k) as [v|] eqn:E; [|done].
  by rewrite (Hc k v E).
Qed.

(** *** Every header is kept *)

Lemma header_key_injective (a b : string) :
  no_upper a = true → no_upper b = true →
  header_key a = header_key b → a = b.
Proof.
  unfold header_key. intros Ha Hb.
  destruct (String.eqb a "to-use") eqn:Ea, (String.eqb b "to-use") eqn:Eb.
  - apply String.eqb_eq in Ea, Eb. congruence.
  - intros E. symmetry in E. by apply kebabToCamelCase_not_to_use in E.
  - intros E. by apply kebabToCamelCase_not_to_use in E.
  - intros E.
    rewrite <- (camelToKebab_kebab a Ha), <- (camelToKebab_kebab b Hb).
    by rewrite E.
Qed.

Lemma headers_untouched (headers : Headers) (config : FlexibleConfig) key :
  key ∉ header_key <$> headers.*1 →
  fold_left store_header headers config !! key = config !! key.
Proof.
  revert config.
  induction headers as [|[name value] headers IH]; intros config Hk; [done|].
  cbn [fold_left]. rewrite !fmap_cons in Hk. cbn [fst] in Hk.
  apply not_elem_of_cons in Hk as [Hne Hk].
  rewrite IH by done. rewrite store_header_insert.
  by apply lookup_insert_ne.
Qed.

Lemma headers_lookup (headers : Headers) (config : FlexibleConfig)
    (name value : string) :
  NoDup (header_key <$> headers.*1) →
  (name, value) ∈ headers →
  fold_left store_header headers config !! header_key name
  = Some (header_value name value).
Proof.
  revert config.
  induction headers as [|[n v] headers IH]; intros config Hnd Hin.
  { by apply elem_of_nil in Hin. }
  rewrite !fmap_cons in Hnd. cbn [fst] in Hnd.
  apply NoDup_cons in Hnd as [Hfresh Hnd].
  cbn [fold_left]. apply elem_of_cons in Hin as [[= -> ->]|Hin].
  - rewrite headers_untouched by done.
    rewrite store_header_insert. apply lookup_insert_eq.
  - by apply IH.
Qed.

Lemma headers_dom (headers : Headers) (config : FlexibleConfig) :
  dom (fold_left store_header headers config)
  = dom config ∪ list_to_set (header_key <$> headers.*1).
Proof.
  revert config.
  induction headers as [|[n v] headers IH]; intros config.
  { simpl. set_solver. }
  cbn [fold_left]. rewrite IH, store_header_insert, dom_insert_L.
  rewrite !fmap_cons. cbn [fst list_to_set]. set_solver.
Qed.

Lemma header_keys_NoDup (headers : Headers) :
  NoDup headers.*1 →
  Forall (fun entry => no_upper entry.1 = true) headers →
  NoDup (header_key <$> headers.*1).
Proof.
  intros Hnd Hlow. apply NoDup_fmap_2_strong; [|done].
  intros a b Ha Hb. apply header_key_injective.
  - apply list_elem_of_fmap in Ha as ([? ?] & -> & Hin).
    by apply (proj1 (Forall_forall _ _) Hlow) in Hin.
  - apply list_elem_of_fmap in Hb as ([? ?] & -> & Hin).
    by apply (proj1 (Forall_forall _ _) Hlow) in Hin.
Qed.

Lemma lower_case_no_proto_key (headers : Headers) :
  Forall (fun entry => no_upper entry.1 = true) headers →
  "__proto__" ∉ headers.*1 →
  "__proto__" ∉ header_key <$> headers.*1.
Proof.
  intros Hlow Hno Hin.
  apply list_elem_of_fmap in Hin as (name & Hkey & Hin).
  apply Hno.
  assert (Hname : no_upper name = true).
  { apply list_elem_of_fmap in Hin as ([? ?] & -> & Hin).
    by apply (proj1 (Forall_forall _ _) Hlow) in Hin. }
  assert (name = "__proto__") as <-; [|done].
  apply header_key_injective; [done|reflexivity|].
  by rewrite <- Hkey.
Qed.

(** X3. On the entries [Headers] yields (distinct names, in lower case),
    when no header is named [__proto__], no header is lost or
    overwritten: each one is stored as an own property under its own key
    ([to-use] itself, the camel-case name otherwise) with its own value,
    the extracted configuration has as many keys as there are headers,
    and its prototype is left alone. *)
Theorem extractHeaderConfig_keeps_every_header (headers : Headers) :
  NoDup headers.*1 →
  Forall (fun entry => no_upper entry.1 = true) headers →
  "__proto__" ∉ headers.*1 →
  (∀ name value, (name, value) ∈ headers →
     own (extractHeaderConfig headers) !! header_key name
     = Some (header_value name value))
  ∧ size (own (extractHeaderConfig headers)) = length headers
  ∧ proto (extractHeaderConfig headers) = ObjectPrototype.
Proof.
  intros Hnd Hlow Hno.
  pose proof (header_keys_NoDup headers Hnd Hlow) as Hkeys.
  rewrite extractHeaderConfig_ordinary
    by (by apply lower_case_no_proto_key).
  cbn [plain own proto]. split; [|split; [|done]].
  - intros name value Hin. by apply headers_lookup.
  - rewrite <- size_dom.
    rewrite headers_dom, dom_empty_L, (left_id_L ∅ (∪)).
    rewrite size_list_to_set by done. by rewrite !length_fmap.
Qed.

Lemma extractHeaderConfig_keeps_every_header_witness :
  own (extractHeaderConfig bad_to_use_headers) !! "clientUrl"
  = Some (JStr "http://request")
  ∧ size (own (extractHeaderConfig bad_to_use_headers)) = 2%nat.
Proof.
  destruct (extractHeaderConfig_keeps_every_header bad_to_use_headers)
    as (Hget & Hsize & _).
  - apply (bool_decide_unpack _). vm_compute. exact I.
  - apply (bool_decide_unpack _). vm_compute. exact I.
  - apply (bool_decide_unpack _). vm_compute. exact I.
  - split; [|exact Hsize].
    apply (Hget "client-url" "http://request").
    apply elem_of_cons. by left.
Defined.

(** *** Extraction from the environment *)

Lemma extractEnvConfig_object (entries : list (string * JsValue)) :
  extractEnvConfig (JObj entries) = fold_left envStep entries ∅.
Proof. reflexivity. Qed.

Lemma env_untouched (entries : list (string * JsValue))
    (config : FlexibleConfig) (key : string) :
  Forall (fun entry => ∀ s, entry.2 = JStr s →
                            upperCaseToCamelCase entry.1 ≠ key) entries →
  fold_left envStep entries config !! key = config !! key.
Proof.
  intros Hall. revert config.
  induction Hall as [|[name v] entries Hentry _ IH]; intros config; [done|].
  cbn [fold_left]. rewrite IH. destruct v; try done.
  rewrite envStep_insert. apply lookup_insert_ne. by eapply Hentry.
Qed.

(** X7. When two environment variables normalize to the same key, the one
    that comes last decides: a string variable is stored under its
    camel-case key, with its coerced value, unless a later string variable
    normalizes to that key too; bindings that are not strings never
    interfere. *)
Theorem extractEnvConfig_last_wins
    (before after : list (string * JsValue)) (name value : string) :
  Forall (fun entry => ∀ s, entry.2 = JStr s →
            upperCaseToCamelCase entry.1 ≠ upperCaseToCamelCase name) after →
  extractEnvConfig (JObj (before ++ (name, JStr value) :: after))
    !! upperCaseToCamelCase name
  = Some (env_value name value).
Proof.
  intros Hafter. rewrite extractEnvConfig_object, fold_left_app.
  cbn [fold_left]. rewrite env_untouched by done.
  rewrite envStep_insert. apply lookup_insert_eq.
Qed.

Lemma extractEnvConfig_last_wins_witness :
  extractEnvConfig (JObj colliding_env) !! "apiUrl"
  = Some (JStr "http://second").
Proof.
  apply (extractEnvConfig_last_wins
           [("API_URL", JStr "http://first"); ("KV", JObj [])] []
           "api_url" "http://second").
  constructor.
Defined.

Lemma env_keys (entries : list (string * JsValue)) (config : FlexibleConfig)
    (k : string) :
  k ∈ dom (fold_left envStep entries config) →
  k ∈ dom config
  ∨ ∃ name value, (name, JStr value) ∈ entries
                  ∧ k = upperCaseToCamelCase name.
Proof.
  revert config.
  induction entries as [|[name v] entries IH]; intros config Hk; [by left|].
  cbn [fold_left] in Hk. apply IH in Hk as [Hk|(n & s & Hin & ->)].
  - destruct v; try (by left).
    rewrite envStep_insert, dom_insert_L in Hk.
    apply elem_of_union in Hk as [->%elem_of_singleton|Hk]; [|by left].
    right. exists name, s. split; [|done]. apply elem_of_cons. by left.
  - right. exists n, s. split; [|done]. apply elem_of_cons. by right.
Qed.

(** X8. Every key of the deployment source comes from a variable whose
    value is a string: an environment that is not an object, and bindings
    that are not strings, contribute no key. *)
Theorem extractEnvConfig_only_string_variables (env : JsValue) (k : string) :
  k ∈ dom (extractEnvConfig env) →
  ∃ name value, (name, JStr value) ∈ Object_entries env
                ∧ k = upperCaseToCamelCase name.
Proof.
  unfold extractEnvConfig.
  destruct (negb (truthy env) || negb (typeof_object env)).
  { rewrite dom_empty_L. by intros ?%not_elem_of_empty. }
  intros [Hk|H]%env_keys; [|done].
  rewrite dom_empty_L in Hk. by apply not_elem_of_empty in Hk.
Qed.

Lemma extractEnvConfig_only_string_variables_witness :
  ∃ name value, (name, JStr value) ∈ colliding_env
                ∧ "apiUrl" = upperCaseToCamelCase name.
Proof.
  apply (extractEnvConfig_only_string_variables (JObj colliding_env)).
  apply elem_of_dom. vm_compute. by eexists.
Defined.

(** *** The environment never yields the key [__proto__] *)

Section Separator.

Variable sep : ascii.
Hypothesis upper_not_sep :
  ∀ l, is_lower l = true → Ascii.eqb (toUpperCase_az l) sep = false.

Lemma replace_head_not_lower l rest :
  is_lower l = false →
  head_not_lower (replace_sep_letter sep (String l rest)).
Proof.
  intros Hl. cbn [replace_sep_letter].
  destruct (Ascii.eqb l sep); [|exact Hl].
  destruct rest as [|l' rest']; [exact Hl|].
  destruct (is_lower l') eqn:E; [|exact Hl].
  cbn. by apply toUpperCase_az_not_lower.
Qed.

(** after the replacement no separator is followed by a lower-case
    letter *)
Lemma replace_no_sep_letter_upto (n : nat) (s : string) :
  (String.length s <= n)%nat →
  has_sep_letter sep (replace_sep_letter sep s) = false.
Proof.
  revert s. induction n as [|n IH]; intros s Hn.
  { destruct s; [done|simpl in Hn; lia]. }
  destruct s as [|c rest]; [done|].
  cbn [replace_sep_letter].
  assert (Hrest : has_sep_letter sep (replace_sep_letter sep rest) = false)
    by (apply IH; simpl in Hn; lia).
  destruct (Ascii.eqb c sep) eqn:Ec.
  - destruct rest as [|l rest']; [done|].
    destruct (is_lower l) eqn:El.
    + assert (Hrest' :
        has_sep_letter sep (replace_sep_letter sep rest') = false)
        by (apply IH; simpl in Hn; lia).
      cbn [has_sep_letter].
      destruct (replace_sep_letter sep rest'); [done|].
      rewrite Hrest', (upper_not_sep _ El). done.
    + pose proof (replace_head_not_lower l rest' El) as Hh.
      unfold head_not_lower in Hh.
      cbn [has_sep_letter].
      destruct (replace_sep_letter sep (String l rest')); [done|].
      rewrite Hrest, Hh, andb_false_r. done.
  - cbn [has_sep_letter].
    destruct (replace_sep_letter sep rest); [done|].
    rewrite Hrest, Ec. done.
Qed.

End Separator.

Lemma toUpperCase_az_not_underscore l :
  is_lower l = true → Ascii.eqb (toUpperCase_az l) "_" = false.
Proof. destruct l as [[] [] [] [] [] [] [] []]; vm_compute; congruence. Qed.

Lemma upperCaseToCamelCase_not_proto (name : string) :
  upperCaseToCamelCase name ≠ "__proto__".
Proof.
  intros E.
  pose proof (replace_no_sep_letter_upto "_" toUpperCase_az_not_underscore
                (String.length (toLowerCase name)) (toLowerCase name)
                (le_n _)) as H.
  unfold upperCaseToCamelCase in E. rewrite E in H.
  vm_compute in H. discriminate.
Qed.

(** the deployment source is an object literal without such a key *)
Lemma extractEnvConfig_no_proto (env : JsValue) :
  extractEnvConfig env !! "__proto__" = None.
Proof.
  destruct (extractEnvConfig env !! "__proto__") as [v|] eqn:E; [|done].
  assert (Hk : "__proto__" ∈ dom (extractEnvConfig env))
    by (apply elem_of_dom; by eexists).
  unfold extractEnvConfig in Hk.
  destruct (negb (truthy env) || negb (typeof_object env)).
  { rewrite dom_empty_L in Hk. by apply not_elem_of_empty in Hk. }
  apply env_keys in Hk as [Hk|(name & value & _ & Hname)].
  - rewrite dom_empty_L in Hk. by apply not_elem_of_empty in Hk.
  - symmetry in Hname. by apply upperCaseToCamelCase_not_proto in Hname.
Qed.

(** *** The resolved map is the merge of the three sources *)

Lemma union_lookup3 (a b c : FlexibleConfig) (k : string) :
  (a ∪ b ∪ c) !! k
  = match a !! k with
    | Some v => Some v
    | None => match b !! k with Some v => Some v | None => c !! k end
    end.
Proof.
  rewrite !lookup_union.
  by destruct (a !! k), (b !! k), (c !! k).
Qed.

Lemma defined_in_is_defined (config : FlexibleConfig) (k : string) v :
  defined_in config k = Some v → is_defined v = true.
Proof.
  unfold defined_in. destruct (config !! k) as [w|]; [|done].
  destruct (is_defined w) eqn:E; [|done]. by intros [= <-].
Qed.

(** ordinary headers leave the method of the request source intact *)
Lemma ordinary_headers_method (headers : Headers) :
  ordinary_headers headers →
  extractHeaderConfig headers
  = plain (fold_left store_header headers ∅)
  ∧ hasOwnProperty_method (extractHeaderConfig headers) = true
  ∧ own (extractHeaderConfig headers) !! "__proto__" = None.
Proof.
  intros [Hproto Hmethod].
  rewrite extractHeaderConfig_ordinary by done.
  split; [done|]. split.
  - apply hasOwnProperty_method_plain.
    rewrite headers_untouched by done. apply lookup_empty.
  - cbn [plain own]. rewrite headers_untouched by done. apply lookup_empty.
Qed.

Lemma ordinary_resolvable (headers : Headers) (env : JsValue) :
  ordinary_headers headers →
  extractEnvConfig env !! "hasOwnProperty" = None →
  resolvable headers env.
Proof.
  intros Hord He. split; [|exact He].
  by destruct (ordinary_headers_method headers Hord) as (_ & H & _).
Qed.

(** The context of a resolution that returns, key by key. *)
Lemma resolveConfig_returns (headers : Headers) (env : JsValue) :
  resolvable headers env →
  ∃ ctx,
    resolveConfig headers env = Some ctx
    ∧ (∀ k, k ≠ "availableTools" → k ≠ "__proto__" →
         own (resolved ctx) !! k
         = (own (extractHeaderConfig headers) ∪ extractEnvConfig env
            ∪ getDefaultConfig) !! k
         ∧ (∀ v, own (extractHeaderConfig headers) !! k = Some v →
                 sources ctx !! k = Some SrcHeader))
    ∧ own (resolved ctx) !! "availableTools"
      = Some (resolveToolFiltering (extractHeaderConfig headers)
                (plain (extractEnvConfig env)) (plain getDefaultConfig))
    ∧ sources ctx !! "availableTools"
      = Some (getToolFilteringSource (extractHeaderConfig headers)
                (plain (extractEnvConfig env)) (plain getDefaultConfig))
    ∧ own (resolved ctx) !! "__proto__" = None.
Proof.
  intros Hres.
  pose proof (extractHeaderConfig_defined headers) as Hh.
  pose proof (extractEnvConfig_defined env) as He.
  pose proof defaultConfig_defined as Hd.
  destruct (resolveSources_intact _ _ _ (resolvable_intact headers env Hres))
    as (ctx & Hctx & Hgen & Ht & Hs & [Hp _] & _).
  exists ctx. split; [exact Hctx|].
  split; [|split; [exact Ht|split; [exact Hs|exact Hp]]].
  intros k Hk Hproto. destruct (Hgen k Hk Hproto) as [Hr Hsrc].
  unfold precedence_spec in Hr, Hsrc. cbn [plain own] in Hr, Hsrc.
  rewrite !defined_in_all_defined in Hr, Hsrc by done.
  rewrite union_lookup3. split.
  - rewrite Hr.
    by destruct (own (extractHeaderConfig headers) !! k),
         (extractEnvConfig env !! k), (getDefaultConfig !! k).
  - intros v Hv. by rewrite Hsrc, Hv.
Qed.

(** X4. For a request with ordinary headers (no key [__proto__], no key
    [hasOwnProperty]) and a deployment without a property named
    [hasOwnProperty], [resolveConfig] returns the merge of the three
    extracted sources: the resolved map is the request source laid over
    the deployment source laid over the fallback, with [availableTools]
    replaced by the tool-list chain; in particular a value set by a
    request header is never overridden by the environment or the
    defaults. *)
Theorem resolveConfig_is_layered_merge (headers : Headers) (env : JsValue) :
  ordinary_headers headers →
  extractEnvConfig env !! "hasOwnProperty" = None →
  let headerConfig := extractHeaderConfig headers in
  let envConfig := extractEnvConfig env in
  ∃ ctx,
    resolveConfig headers env = Some ctx
    ∧ own (resolved ctx)
      = <["availableTools" :=
               resolveToolFiltering headerConfig (plain envConfig)
                 (plain getDefaultConfig)]>
          (own headerConfig ∪ envConfig ∪ getDefaultConfig)
    ∧ (∀ k v, k ≠ "availableTools" → own headerConfig !! k = Some v →
         own (resolved ctx) !! k = Some v
         ∧ sources ctx !! k = Some SrcHeader).
Proof.
  intros Hord He hc ec. subst hc ec.
  destruct (ordinary_headers_method headers Hord) as (_ & _ & Hnp).
  destruct (resolveConfig_returns headers env
              (ordinary_resolvable headers env Hord He))
    as (ctx & Hctx & Hgen & Ht & _ & Hp).
  exists ctx. split; [exact Hctx|]. split.
  - apply map_eq. intros k.
    destruct (decide (k = "availableTools")) as [->|Hk].
    { by rewrite lookup_insert_eq. }
    rewrite lookup_insert_ne by done.
    destruct (decide (k = "__proto__")) as [->|Hproto].
    + rewrite Hp, union_lookup3, Hnp, extractEnvConfig_no_proto. done.
    + by apply Hgen.
  - intros k v Hk Hv.
    assert (Hproto : k ≠ "__proto__") by (intros ->; congruence).
    destruct (Hgen k Hk Hproto) as [Hr Hs]. split; [|by eapply Hs].
    by rewrite Hr, union_lookup3, Hv.
Qed.

Lemma resolveConfig_is_layered_merge_witness :
  ∃ ctx,
    resolveConfig url_headers url_env = Some ctx
    ∧ own (resolved ctx) !! "clientUrl" = Some (JStr "http://request")
    ∧ sources ctx !! "clientUrl" = Some SrcHeader.
Proof.
  destruct (resolveConfig_is_layered_merge url_headers url_env)
    as (ctx & Hctx & _ & H).
  - split; apply (bool_decide_unpack _); vm_compute; exact I.
  - vm_compute. reflexivity.
  - exists ctx. split; [exact Hctx|].
    apply H; [discriminate|vm_compute; reflexivity].
Defined.

(** X5. In every resolution whose three sources have the method
    [hasOwnProperty] intact, the context is returned and its attribution
    is total and exact: a key is resolved if and only if it has a source
    entry, no resolved value is [undefined], and the raw inputs recorded
    are the three sources. *)
Theorem resolution_attributes_every_key
    (headerConfig envConfig defaultConfig : JsObject) :
  methods_intact headerConfig envConfig defaultConfig →
  ∃ ctx,
    resolveSources headerConfig envConfig defaultConfig = Some ctx
    ∧ dom (own (resolved ctx)) = dom (sources ctx)
    ∧ all_defined (own (resolved ctx))
    ∧ raw ctx = {| raw_headers := headerConfig; raw_env := envConfig;
                   raw_defaults := defaultConfig |}.
Proof.
  intros Hintact.
  destruct (resolveSources_intact headerConfig envConfig defaultConfig
              Hintact)
    as (ctx & Hctx & Hgen & Ht & Hs & [Hp Hps] & _ & _ & _ & Hraw).
  destruct (resolveToolFiltering_array headerConfig envConfig defaultConfig)
    as [tools Harr].
  exists ctx. split; [exact Hctx|]. split; [|split; [|exact Hraw]].
  - apply set_eq. intros k. rewrite !elem_of_dom.
    destruct (decide (k = "availableTools")) as [->|Hk].
    { rewrite Ht, Hs. split; intros _; by eexists. }
    destruct (decide (k = "__proto__")) as [->|Hproto].
    { rewrite Hp, Hps. done. }
    destruct (Hgen k Hk Hproto) as [-> ->].
    destruct (precedence_spec _ _ _ k); simpl; split; intros [? ?];
      by eauto.
  - intros k v Hv.
    destruct (decide (k = "availableTools")) as [->|Hk].
    { rewrite Ht, Harr in Hv. by injection Hv as <-. }
    destruct (decide (k = "__proto__")) as [->|Hproto].
    { by rewrite Hp in Hv. }
    destruct (Hgen k Hk Hproto) as [Hr _].
    rewrite Hr in Hv. unfold precedence_spec in Hv.
    destruct (defined_in (own headerConfig) k) eqn:E1;
      [injection Hv as <-; by eapply defined_in_is_defined|].
    destruct (defined_in (own envConfig) k) eqn:E2;
      [injection Hv as <-; by eapply defined_in_is_defined|].
    destruct (defined_in (own defaultConfig) k) eqn:E3;
      [injection Hv as <-; by eapply defined_in_is_defined|done].
Qed.

Lemma resolution_attributes_every_key_witness :
  ∃ ctx,
    resolveConfig url_headers url_env = Some ctx
    ∧ dom (own (resolved ctx)) = dom (sources ctx).
Proof.
  destruct (resolution_attributes_every_key (extractHeaderConfig url_headers)
              (plain (extractEnvConfig url_env)) (plain getDefaultConfig))
    as (ctx & Hctx & Hdom & _).
  - repeat split; vm_compute; reflexivity.
  - exists ctx. split; [exact Hctx|exact Hdom].
Defined.

(** X6. In every resolution whose three sources have the method
    [hasOwnProperty] intact, the resolved [availableTools] is an array,
    whatever the sources hold; the resolution is valid, without errors,
    and it carries the "no tools" warning exactly when that array is
    empty. *)
Theorem resolution_tool_list_and_validation
    (headerConfig envConfig defaultConfig : JsObject) :
  methods_intact headerConfig envConfig defaultConfig →
  ∃ ctx tools,
    resolveSources headerConfig envConfig defaultConfig = Some ctx
    ∧ own (resolved ctx) !! "availableTools" = Some (JArr tools)
    ∧ (tools = [] ↔ warnings (validation ctx) = [no_tools_warning])
    ∧ (tools ≠ [] ↔ warnings (validation ctx) = [])
    ∧ isValid (validation ctx) = true
    ∧ errors (validation ctx) = [].
Proof.
  intros Hintact.
  destruct (resolveSources_intact headerConfig envConfig defaultConfig
              Hintact)
    as (ctx & Hctx & _ & Ht & _ & _ & Hw & Hv & He & _).
  destruct (resolveToolFiltering_array headerConfig envConfig defaultConfig)
    as [tools Harr].
  rewrite Harr in Ht, Hw.
  exists ctx, tools. split; [exact Hctx|]. split; [exact Ht|].
  rewrite Hw. split; [|split; [|split; [exact Hv|exact He]]].
  - by destruct tools.
  - by destruct tools.
Qed.

Lemma resolution_tool_list_and_validation_witness :
  ∃ ctx,
    resolveConfig bad_to_use_headers JNull = Some ctx
    ∧ own (resolved ctx) !! "availableTools" = Some (JArr [])
    ∧ warnings (validation ctx) = [no_tools_warning].
Proof.
  destruct (resolution_tool_list_and_validation
              (extractHeaderConfig bad_to_use_headers)
              (plain (extractEnvConfig JNull)) (plain getDefaultConfig))
    as (ctx & tools & Hctx & Ht & Hempty & _).
  - repeat split; vm_compute; reflexivity.
  - exists ctx. split; [exact Hctx|].
    assert (Hctx' := Hctx). vm_compute in Hctx'.
    injection Hctx' as Hctx'.
    assert (tools = []) as ->.
    { rewrite <- Hctx' in Ht. vm_compute in Ht. by injection Ht as <-. }
    split; [exact Ht|]. by apply Hempty.
Defined.

(** *** A comma-separated tool list *)




(** a request without a [to-use] header and with ordinary headers reads
    no tool list from its source *)
Lemma no_to_use_read (headers : Headers) :
  "to-use" ∉ headers.*1 → ordinary_headers headers →
  obj_read (extractHeaderConfig headers) "to-use" = JUndefined.
Proof.
  intros Hno [Hproto _].
  assert (Hown : own (extractHeaderConfig headers) !! "to-use" = None).
  { rewrite extractHeaderConfig_fold, headerStep_other_keys by done.
    apply lookup_empty. }
  unfold obj_read. rewrite Hown.
  by rewrite extractHeaderConfig_ordinary.
Qed.



(** *** When the resolution throws *)

Lemma shadowing_header_loses_method (headers : Headers) :
  "hasOwnProperty" ∈ header_key <$> headers.*1 →
  hasOwnProperty_method (extractHeaderConfig headers) = false.
Proof.
  intros Hin.
  apply list_elem_of_fmap in Hin as (name & Hkey & Hin).
  apply list_elem_of_fmap in Hin as ([n value] & -> & Hin). cbn [fst] in Hkey.
  assert (Hne : header_key n ≠ "__proto__") by (by rewrite <- Hkey).
  pose proof (header_key_stored headers (plain ∅) n value Hin Hne) as Hs.
  rewrite <- Hkey in Hs. fold (extractHeaderConfig headers) in Hs.
  unfold hasOwnProperty_method.
  by rewrite bool_decide_eq_true_2.
Qed.

(** X21. When the resolution of a request throws. [resolveConfig]
    returns a context exactly when [hasOwnProperty] is still the method
    of [Object.prototype] on the extracted request source and the
    deployment source has no property of that name; otherwise the call
    [source.hasOwnProperty(key)] of the loop throws. In particular it
    returns for every request with ordinary headers over a deployment
    without such a variable, and it throws for every request with a
    header whose key is [hasOwnProperty] (such as [has-own-property]),
    whatever else the request and the deployment hold. *)
Theorem resolveConfig_returns_iff (headers : Headers) (env : JsValue) :
  (is_Some (resolveConfig headers env) ↔ resolvable headers env)
  ∧ (ordinary_headers headers →
     extractEnvConfig env !! "hasOwnProperty" = None →
     is_Some (resolveConfig headers env))
  ∧ ("hasOwnProperty" ∈ header_key <$> headers.*1 →
     resolveConfig headers env = None)
  ∧ (is_Some (extractEnvConfig env !! "hasOwnProperty") →
     resolveConfig headers env = None).
Proof.
  assert (Hiff : is_Some (resolveConfig headers env)
                 ↔ resolvable headers env).
  { split.
    - intros [ctx Hctx].
      destruct (hasOwnProperty_method (extractHeaderConfig headers)) eqn:Hh.
      + destruct (extractEnvConfig env !! "hasOwnProperty") as [v|] eqn:He;
          [|by split].
        rewrite resolveConfig_throws in Hctx; [done|].
        intros [_ H]. congruence.
      + rewrite resolveConfig_throws in Hctx; [done|].
        intros [H _]. congruence.
    - intros Hres.
      destruct (resolveConfig_returns headers env Hres) as (ctx & -> & _).
      by eexists. }
  split; [exact Hiff|]. split; [|split].
  - intros Hord He. by apply Hiff, ordinary_resolvable.
  - intros Hin. apply resolveConfig_throws. intros [H _].
    by rewrite shadowing_header_loses_method in H.
  - intros [v Hv]. apply resolveConfig_throws. intros [_ H]. congruence.
Qed.

Lemma resolveConfig_returns_iff_witness :
  is_Some (resolveConfig url_headers url_env)
  ∧ resolveConfig shadowing_headers url_env = None
  ∧ resolveConfig url_headers (JObj [("HAS_OWN_PROPERTY", JStr "x")]) = None.
Proof.
  destruct (resolveConfig_returns_iff url_headers url_env)
    as (_ & Hret & _).
  destruct (resolveConfig_returns_iff shadowing_headers url_env)
    as (_ & _ & Hheader & _).
  destruct (resolveConfig_returns_iff url_headers
              (JObj [("HAS_OWN_PROPERTY", JStr "x")]))
    as (_ & _ & _ & Henv).
  split; [|split].
  - apply Hret.
    + split; apply (bool_decide_unpack _); vm_compute; exact I.
    + vm_compute. reflexivity.
  - apply Hheader. apply (bool_decide_unpack _). vm_compute. exact I.
  - apply Henv. vm_compute. by eexists.
Defined.

(** ** Further properties of the registry *)

#[local] Set Warnings "-clear-no-such-hyp".

(** X10. Registration and lookup: after [registerTool], [getTool] returns
    the tool under its name and [isToolRegistered] holds for it; the
    lookups of every other name are as before; and a name is unregistered
    exactly when [getTool] returns nothing for it. *)
Theorem lookup_after_registration
    (registry : ToolRegistry) (tool : MCPTool) (options : RegistrationOptions) :
  let registry' := registerTool registry tool options in
  getTool registry' (name tool) = Some tool
  ∧ isToolRegistered registry' (name tool) = true
  ∧ (∀ other, other ≠ name tool →
       getTool registry' other = getTool registry other
       ∧ isToolRegistered registry' other = isToolRegistered registry other)
  ∧ (∀ n, isToolRegistered registry n = false ↔ getTool registry n = None).
Proof.
  intros registry'. unfold getTool, isToolRegistered. subst registry'.
  cbn [registerTool tools]. rewrite Map_get_set_eq.
  split; [done|]. split; [done|]. split.
  - intros other Hne. by rewrite Map_get_set_ne.
  - intros n. destruct (Map_get n (tools registry)); simpl; split; done.
Qed.

Lemma lookup_after_registration_witness :
  getTool two_tools "a" = Some tool_a
  ∧ getTool (registerTool two_tools (plain_tool "c" "third")
               no_registration_options) "a" = Some tool_a
  ∧ getTool two_tools "c" = None.
Proof.
  destruct (lookup_after_registration two_tools (plain_tool "c" "third")
              no_registration_options) as (_ & _ & Hother & Hmiss).
  split; [reflexivity|]. split.
  - destruct (Hother "a") as [-> _]; [discriminate|reflexivity].
  - apply Hmiss. reflexivity.
Defined.

Lemma Map_get_None_keys {V : Type} (m : list (string * V)) (k : string) :
  Map_get k m = None ↔ k ∉ fst <$> m.
Proof.
  induction m as [|[k0 v0] m IH]; simpl.
  - split; [intros _; apply not_elem_of_nil|done].
  - rewrite not_elem_of_cons. destruct (String.eqb k k0) eqn:E.
    + apply String.eqb_eq in E. split; [done|]. by intros [? _].
    + apply String.eqb_neq in E. rewrite IH. tauto.
Qed.

Lemma Map_set_fresh {V : Type} (m : list (string * V)) (k : string) (v : V) :
  k ∉ fst <$> m → Map_set k v m = m ++ [(k, v)].
Proof.
  induction m as [|[k0 v0] m IH]; intros Hk; [done|].
  rewrite fmap_cons in Hk. apply not_elem_of_cons in Hk as [Hne Hk].
  simpl in Hne |- *. apply String.eqb_neq in Hne. rewrite Hne.
  by rewrite IH.
Qed.

Lemma Map_set_replace (m : list (string * ToolRegistration))
    (t : MCPTool) (r : ToolRegistration) :
  tool r = t →
  NoDup (fst <$> m) →
  Forall (fun entry => entry.1 = name (tool entry.2)) m →
  name t ∈ fst <$> m →
  (fun entry => tool entry.2) <$> Map_set (name t) r m
  = replace_tool t <$> ((fun entry => tool entry.2) <$> m).
Proof.
  intros Hr Hnd Hall Hin.
  induction Hall as [|[k0 r0] m Hk0 Hall IH]; [by apply elem_of_nil in Hin|].
  rewrite fmap_cons in Hnd, Hin. simpl in Hnd, Hin, Hk0.
  apply NoDup_cons in Hnd as [Hfresh Hnd].
  cbn [Map_set]. destruct (String.eqb (name t) k0) eqn:E.
  - apply String.eqb_eq in E. rewrite !fmap_cons. cbn [snd].
    unfold replace_tool at 1. rewrite <- Hk0, <- E, String.eqb_refl, Hr.
    f_equal. rewrite <- list_fmap_compose.
    apply list_fmap_ext. intros i [k1 r1] Hi. simpl.
    unfold replace_tool.
    assert (Hne : name (tool r1) ≠ name t).
    { intros Heq. apply Hfresh. rewrite <- E, <- Heq.
      apply list_elem_of_fmap. exists (k1, r1). split.
      - symmetry. apply (proj1 (Forall_forall _ _) Hall (k1, r1)).
        by eapply list_elem_of_lookup_2.
      - by eapply list_elem_of_lookup_2. }
    by apply String.eqb_neq in Hne as ->.
  - apply String.eqb_neq in E. rewrite !fmap_cons. cbn [snd].
    apply elem_of_cons in Hin as [Hin|Hin]; [done|].
    rewrite IH by done. f_equal.
    unfold replace_tool. rewrite <- Hk0.
    assert (Hne : k0 ≠ name t) by congruence.
    by apply String.eqb_neq in Hne as ->.
Qed.

(** X11. Registration order: registering a tool under a new name puts it
    after all registered tools; registering under a name already in use
    replaces that tool where it stands and moves nothing. *)
Theorem registration_keeps_order
    (registry : ToolRegistry) (tool : MCPTool) (options : RegistrationOptions) :
  registry_ok registry →
  getAllTools (registerTool registry tool options)
  = if isToolRegistered registry (name tool)
    then replace_tool tool <$> getAllTools registry
    else getAllTools registry ++ [tool].
Proof.
  intros [Hnd Hall]. unfold getAllTools, isToolRegistered.
  cbn [registerTool tools].
  destruct (Map_get (name tool) (tools registry)) as [r|] eqn:E.
  - rewrite bool_decide_eq_true_2 by (by eexists).
    apply Map_set_replace; [done..|].
    destruct (decide (name tool ∈ (tools registry).*1)) as [|Hn]; [done|].
    apply Map_get_None_keys in Hn. congruence.
  - rewrite bool_decide_eq_false_2 by (by intros [? ?]).
    apply Map_get_None_keys in E. rewrite Map_set_fresh by done.
    by rewrite fmap_app.
Qed.

Lemma registration_keeps_order_witness :
  getAllTools (registerTool two_tools (plain_tool "a" "first, again")
                 no_registration_options)
  = [plain_tool "a" "first, again"; tool_b]
  ∧ getAllTools (registerTool two_tools (plain_tool "c" "third")
                   no_registration_options)
    = [tool_a; tool_b; plain_tool "c" "third"].
Proof.
  assert (Hok : registry_ok two_tools)
    by (apply (bool_decide_unpack _); vm_compute; exact I).
  split.
  - rewrite (registration_keeps_order two_tools _ _ Hok). reflexivity.
  - rewrite (registration_keeps_order two_tools _ _ Hok). reflexivity.
Defined.

(** *** Registering a list of tools *)

Lemma registerTools_cons registry tool batch :
  registerTools registry (tool :: batch)
  = registerTools (registerTool registry tool no_registration_options) batch.
Proof. reflexivity. Qed.

Lemma registerTools_get registry batch (n : string) :
  Map_get n (tools (registerTools registry batch))
  = match last_registered batch n with
    | Some registration => Some registration
    | None => Map_get n (tools registry)
    end.
Proof.
  revert registry. induction batch as [|t ts IH]; intros registry; [done|].
  rewrite registerTools_cons, IH. cbn [last_registered].
  destruct (last_registered ts n); [done|].
  cbn [registerTool tools].
  destruct (String.eqb n (name t)) eqn:E.
  - apply String.eqb_eq in E. subst n. apply Map_get_set_eq.
  - apply String.eqb_neq in E. by apply Map_get_set_ne.
Qed.

Lemma registerTool_key_set registry tool options :
  list_to_set (fst <$> tools (registerTool registry tool options))
  =@{gset string} list_to_set (fst <$> tools registry) ∪ {[name tool]}.
Proof.
  cbn [registerTool tools]. rewrite Map_set_keys.
  case_decide as Hin.
  - apply (elem_of_list_to_set (C:=gset string)) in Hin. set_solver.
  - rewrite list_to_set_app_L. simpl. set_solver.
Qed.

Lemma registerTools_key_set registry batch :
  list_to_set (fst <$> tools (registerTools registry batch))
  =@{gset string}
  list_to_set (fst <$> tools registry) ∪ list_to_set (name <$> batch).
Proof.
  revert registry. induction batch as [|t ts IH]; intros registry.
  { simpl. set_solver. }
  rewrite registerTools_cons, IH, registerTool_key_set, fmap_cons.
  rewrite list_to_set_cons. set_solver.
Qed.

Lemma registerTools_same_keys registry batch :
  Forall (fun t => name t ∈ fst <$> tools registry) batch →
  fst <$> tools (registerTools registry batch) = fst <$> tools registry.
Proof.
  revert registry. induction batch as [|t ts IH]; intros registry Hall;
    [done|].
  apply Forall_cons in Hall as [Ht Hts].
  assert (Hkeys : fst <$> tools (registerTool registry t
                                   no_registration_options)
                  = fst <$> tools registry).
  { cbn [registerTool tools]. rewrite Map_set_keys.
    by rewrite decide_True. }
  rewrite registerTools_cons, IH; [done|]. by rewrite Hkeys.
Qed.

Lemma Map_ext {V : Type} (m1 m2 : list (string * V)) :
  NoDup (fst <$> m1) →
  fst <$> m1 = fst <$> m2 →
  (∀ k, Map_get k m1 = Map_get k m2) →
  m1 = m2.
Proof.
  revert m2. induction m1 as [|[k v] m1 IH]; intros [|[k' v'] m2] Hnd Hk Hget;
    try done.
  rewrite !fmap_cons in Hk, Hnd. simpl in Hk, Hnd.
  injection Hk as <- Hk. apply NoDup_cons in Hnd as [Hfresh Hnd].
  pose proof (Hget k) as Hv. simpl in Hv. rewrite String.eqb_refl in Hv.
  injection Hv as <-. f_equal. apply IH; [done|exact Hk|].
  intros k0. destruct (decide (k0 = k)) as [->|Hne].
  - transitivity (@None V); [|symmetry]; apply Map_get_None_keys;
      [done|rewrite Hk in Hfresh; exact Hfresh].
  - pose proof (Hget k0) as H0. simpl in H0.
    apply String.eqb_neq in Hne. by rewrite Hne in H0.
Qed.

Lemma registry_eq (a b : ToolRegistry) :
  tools a = tools b → filteredCache a = filteredCache b → a = b.
Proof. destruct a, b. simpl. by intros -> ->. Qed.

(** X12. Registering a list of tools a second time changes nothing: the
    registry after [registerTools] is a fixed point of registering the
    same list again (same tools, same order, cache still empty). *)
Theorem registerTools_idempotent
    (registry : ToolRegistry) (batch : list MCPTool) :
  registry_ok registry →
  registerTools (registerTools registry batch) batch
  = registerTools registry batch.
Proof.
  intros Hok. destruct batch as [|t ts] eqn:Eb; [done|]. rewrite <- Eb.
  assert (Hne : batch ≠ []) by (by rewrite Eb).
  clear Eb t ts. apply registry_eq.
  - pose proof (registerTools_ok registry batch Hok) as Hok1.
    pose proof (registerTools_ok _ batch Hok1) as [Hnd2 _].
    assert (Hkeys : fst <$> tools (registerTools
                                    (registerTools registry batch) batch)
                    = fst <$> tools (registerTools registry batch)).
    { apply registerTools_same_keys. apply Forall_forall. intros t Ht.
      apply (elem_of_list_to_set (C:=gset string)).
      rewrite registerTools_key_set. apply elem_of_union. right.
      apply elem_of_list_to_set. by apply list_elem_of_fmap_2. }
    apply Map_ext; [done|done|].
    intros k. rewrite !registerTools_get.
    by destruct (last_registered batch k).
  - by rewrite !registerTools_clears_cache.
Qed.

Lemma registerTools_idempotent_witness :
  registerTools two_tools [tool_a; tool_b] = two_tools.
Proof.
  apply (registerTools_idempotent toolRegistry [tool_a; tool_b]).
  apply (bool_decide_unpack _). vm_compute. exact I.
Defined.

(** X13. The registry holds one registration per distinct name: after
    [registerTools], the number of registered tools is the number of
    distinct names among those registered before and those of the
    list. *)
Theorem registry_counts_distinct_names
    (registry : ToolRegistry) (batch : list MCPTool) :
  registry_ok registry →
  (getRegistryStats (registerTools registry batch)).1.1
  = Z.of_nat (size (list_to_set (fst <$> tools registry)
                    ∪ list_to_set (name <$> batch) : gset string))
  ∧ NoDup (getRegistryStats (registerTools registry batch)).2.
Proof.
  intros Hok.
  pose proof (registerTools_ok registry batch Hok) as [Hnd _].
  unfold getRegistryStats. cbn [fst snd]. split; [|done].
  rewrite <- registerTools_key_set, size_list_to_set by done.
  by rewrite length_fmap.
Qed.

Lemma registry_counts_distinct_names_witness :
  (getRegistryStats
     (registerTools toolRegistry
        [plain_tool "x" "first"; tool_a; plain_tool "x" "second"])).1.1 = 2.
Proof.
  destruct (registry_counts_distinct_names toolRegistry
              [plain_tool "x" "first"; tool_a; plain_tool "x" "second"])
    as [Hcount _].
  - apply (bool_decide_unpack _). vm_compute. exact I.
  - rewrite Hcount. vm_compute. reflexivity.
Defined.

(** ** Further properties of the filter *)

Lemma getAllTools_registrations registry :
  getAllTools registry = tool <$> allRegistrations registry.
Proof.
  unfold getAllTools, allRegistrations. by rewrite <- list_fmap_compose.
Qed.

Lemma eligible_sublist registry config options :
  sublist (eligible registry config options) (getAllTools registry).
Proof.
  rewrite getAllTools_registrations. unfold eligible.
  apply fmap_sublist, sublist_filter.
Qed.

Lemma cold_tools_sublist registry config options :
  cache_miss registry config options →
  sublist (Result.tools (filterTools registry config options).1)
    (getAllTools registry).
Proof.
  intros Hmiss.
  destruct (filterTools_miss config options registry Hmiss) as (-> & _).
  destruct (availableTools config).
  - apply eligible_sublist.
  - etrans; [apply sublist_filter|apply eligible_sublist].
Qed.

Lemma cache_ok_empty registry :
  filteredCache registry = ∅ → cache_ok registry.
Proof. intros E key cached. by rewrite E, lookup_empty. Qed.

Lemma filterTools_cache_ok registry config options :
  cache_ok registry → cache_ok (filterTools registry config options).2.
Proof.
  intros Hok.
  destruct (filteredCache registry !! createFilterCacheKey config options)
    as [cached|] eqn:E.
  { by rewrite (filterTools_hit _ _ _ _ E). }
  pose proof (cold_tools_sublist registry config options E) as Hsub.
  destruct (filterTools_miss config options registry E) as (_ & _ & _ & Hreg).
  rewrite Hreg. intros key cached. unfold getAllTools. cbn [tools filteredCache].
  intros [[_ <-]|[_ Hold]]%lookup_insert_Some; [exact Hsub|].
  by eapply Hok.
Qed.

Lemma reachable_cache_ok registry : reachable registry → cache_ok registry.
Proof.
  induction 1 as [|registry tool options _ _|registry batch _ IH
                  |registry _ _|registry config options _ IH].
  - by apply cache_ok_empty.
  - by apply cache_ok_empty.
  - destruct batch as [|t ts]; [exact IH|].
    by apply cache_ok_empty, registerTools_clears_cache.
  - by apply cache_ok_empty.
  - by apply filterTools_cache_ok.
Qed.

(** X14. Because every registration empties the cache, a cached list
    never goes stale with respect to the tool map: on every registry the
    exported functions can produce, each filter result, cold or cached,
    lists registered tools only, in registry order, and its counts lie
    between zero and the registry size. *)
Theorem filter_results_stay_within_registry
    (registry : ToolRegistry) (config : ResolvedConfig)
    (options : ToolFilterOptions) :
  reachable registry →
  let result := (filterTools registry config options).1 in
  sublist (Result.tools result) (getAllTools registry)
  ∧ 0 ≤ Summary.included (Result.summary result)
    ≤ Summary.total (Result.summary result)
  ∧ 0 ≤ Summary.excluded (Result.summary result)
    ≤ Summary.total (Result.summary result).
Proof.
  intros Hreach result.
  pose proof (reachable_cache_ok registry Hreach) as Hcache.
  assert (Hsub : sublist (Result.tools result) (getAllTools registry)).
  { destruct (filteredCache registry !! createFilterCacheKey config options)
      as [cached|] eqn:E.
    - unfold result. rewrite (filterTools_hit _ _ _ _ E). simpl.
      by eapply Hcache.
    - by apply cold_tools_sublist. }
  split; [exact Hsub|].
  apply sublist_length in Hsub. unfold getAllTools in Hsub.
  rewrite length_fmap in Hsub.
  destruct (filteredCache registry !! createFilterCacheKey config options)
    as [cached|] eqn:E.
  - unfold result in *. rewrite (filterTools_hit _ _ _ _ E) in *.
    simpl in *. lia.
  - pose proof (filterTools_miss_counts registry config options E) as Hn.
    destruct (filterTools_miss config options registry E) as (_ & _ & Hs & _).
    cbv zeta in Hn, Hs. fold result in Hn, Hs. rewrite Hs. simpl. lia.
Qed.

Lemma filter_results_stay_within_registry_witness :
  let cold := filterTools two_tools (only ["b"]) no_filter_options in
  let warm := filterTools cold.2 (only ["b"]) no_filter_options in
  sublist (Result.tools warm.1) [tool_a; tool_b]
  ∧ 0 ≤ Summary.excluded (Result.summary warm.1) ≤ 2.
Proof.
  intros cold warm.
  assert (Hreach : reachable cold.2).
  { apply reach_filterTools, reach_registerTools, reach_initial. }
  destruct (filter_results_stay_within_registry cold.2 (only ["b"])
              no_filter_options Hreach) as (Hsub & _ & Hx).
  split; [exact Hsub|exact Hx].
Defined.

(** *** The generic checks *)

Lemma first_unmet_none (conds : list ToolCondition) (config : ResolvedConfig) :
  first_unmet conds config = None
  ↔ ∀ condition, condition ∈ conds → evaluateCondition condition config = true.
Proof.
  induction conds as [|c cs IH]; simpl.
  - split; [|done]. intros _ condition Hin. by apply elem_of_nil in Hin.
  - destruct (evaluateCondition c config) eqn:Ec; simpl.
    + rewrite IH. split.
      * intros H condition [->|Hin]%elem_of_cons; auto.
      * intros H condition Hin. apply H, elem_of_cons. by right.
    + split; [done|]. intros H.
      specialize (H c (proj2 (elem_of_cons _ _ _) (or_introl eq_refl))).
      congruence.
Qed.

Lemma includes_true (l : list string) (x : string) :
  includes l x = true ↔ x ∈ l.
Proof. unfold includes. apply bool_decide_eq_true. Qed.

Lemma includes_false (l : list string) (x : string) :
  includes l x = false ↔ x ∉ l.
Proof. unfold includes. apply bool_decide_eq_false. Qed.

Lemma forallb_includes (have required : list string) :
  forallb (includes have) required = true
  ↔ ∀ tag, tag ∈ required → tag ∈ have.
Proof.
  rewrite forallb_forall. split.
  - intros H tag Hin. apply includes_true, H. by apply list_elem_of_In.
  - intros H tag Hin. apply includes_true, H. by apply list_elem_of_In.
Qed.

Lemma cascade_step (b : bool) (P Q : Prop) (why : string)
    (rest : IncludeReason) :
  (b = false ↔ P) → (rest = IsTrue ↔ Q) →
  (if b then Reason why else rest) = IsTrue ↔ P ∧ Q.
Proof.
  intros HP HQ. destruct b.
  - split; [done|]. intros [HP' _]. by apply HP in HP'.
  - rewrite HQ. split; [|by intros [_ ?]]. intros. split; [by apply HP|done].
Qed.

(** The cascade of [shouldIncludeTool] lets a registration through
    exactly when it passes every check. *)
Lemma shouldIncludeTool_passes (registration : ToolRegistration)
    (config : ResolvedConfig) (options : ToolFilterOptions) :
  shouldIncludeTool (tool registration) registration config options = IsTrue
  ↔ passes_filters registration config options.
Proof.
  unfold shouldIncludeTool, passes_filters. cbv zeta.
  apply cascade_step.
  { destruct (enabledByDefault registration) as [[|]|]; simpl;
      split; congruence. }
  apply cascade_step.
  { destruct (include options) as [l|].
    - rewrite negb_false_iff, includes_true. split.
      + by intros H names [= <-].
      + intros H. by apply H.
    - split; [|done]. by intros _ names. }
  apply cascade_step.
  { destruct (exclude options) as [l|].
    - rewrite includes_false. split.
      + by intros H names [= <-].
      + intros H. by apply H.
    - split; [|done]. by intros _ names. }
  apply cascade_step.
  { destruct (categories options) as [l|].
    - destruct (metadata (tool registration) ≫= category) as [[|c0 c]|].
      + split; [done|]. intros H.
        destruct (H l eq_refl) as (c & [= <-] & Hne & _). done.
      + rewrite negb_false_iff, includes_true. split.
        * intros H allowed [= <-]. by exists (String c0 c).
        * intros H. by destruct (H l eq_refl) as (c' & [= <-] & _ & ?).
      + split; [done|]. intros H. by destruct (H l eq_refl) as (c & ? & _).
    - split; [|done]. by intros _ allowed. }
  apply cascade_step.
  { destruct (requiredTags options) as [[|tag0 required]|].
    - split; [|done]. intros _ required [= <-] tag Hin.
      by apply elem_of_nil in Hin.
    - rewrite negb_false_iff, forallb_includes. split.
      + by intros H required' [= <-].
      + intros H. by apply H.
    - split; [|done]. by intros _ required. }
  apply cascade_step.
  { destruct (metadata (tool registration) ≫= requiresAuth) as [[|]|],
      (includeAuthRequired options) as [[|]|]; simpl; split;
      try done; try (by intros _ _); intros H; by destruct H. }
  rewrite <- first_unmet_none.
  by destruct (first_unmet _ config).
Qed.

(** X15. What a cold filter call returns, stated check by check: a tool
    is returned exactly when it is registered, enabled, named by the
    include list and not by the exclude list (where given), of an allowed
    category, carrying every required tag, not requiring authentication
    when that is ruled out, with every condition met, and named in
    [availableTools] when that list is not empty. *)
Theorem cold_result_membership
    (registry : ToolRegistry) (config : ResolvedConfig)
    (options : ToolFilterOptions) (t : MCPTool) :
  cache_miss registry config options →
  t ∈ Result.tools (filterTools registry config options).1
  ↔ ∃ registration,
      registration ∈ allRegistrations registry
      ∧ tool registration = t
      ∧ passes_filters registration config options
      ∧ (availableTools config ≠ [] → name t ∈ availableTools config).
Proof.
  intros Hmiss.
  destruct (filterTools_miss config options registry Hmiss) as (-> & _).
  assert (Helig : t ∈ eligible registry config options
    ↔ ∃ registration, registration ∈ allRegistrations registry
        ∧ tool registration = t
        ∧ passes_filters registration config options).
  { unfold eligible. rewrite list_elem_of_fmap. split.
    - intros (r & -> & [Hinc Hin]%list_elem_of_filter).
      exists r. split; [done|]. split; [done|].
      apply shouldIncludeTool_passes. unfold is_included in Hinc.
      by destruct (shouldIncludeTool _ _ _ _).
    - intros (r & Hin & <- & Hpass). exists r. split; [done|].
      apply list_elem_of_filter. split; [|done].
      apply shouldIncludeTool_passes in Hpass.
      unfold is_included. by rewrite Hpass. }
  destruct (availableTools config) as [|n ns] eqn:Ea.
  - rewrite Helig. split.
    + intros (r & ? & ? & ?). exists r.
      split; [done|]. split; [done|]. split; [done|].
      intros Hne. by destruct Hne.
    + intros (r & ? & ? & ? & _). by exists r.
  - rewrite list_elem_of_filter, Helig. split.
    + intros (Hn & r & ? & ? & ?). exists r.
      split; [done|]. split; [done|]. split; [done|]. by intros _.
    + intros (r & ? & ? & ? & Hn). split; [by apply Hn|]. by exists r.
Qed.

Lemma cold_result_membership_witness :
  tool_a ∈ Result.tools (filterTools three_tools (only []) no_auth_options).1
  ∧ secured_tool
    ∉ Result.tools (filterTools three_tools (only []) no_auth_options).1.
Proof.
  split.
  - vm_compute. apply elem_of_cons. by left.
  - intros Hin.
    apply (cold_result_membership three_tools (only []) no_auth_options)
      in Hin; [|reflexivity].
    destruct Hin as (r & _ & Ht & Hpass & _).
    destruct Hpass as (_ & _ & _ & _ & _ & Hauth & _).
    apply Hauth; [reflexivity|]. by rewrite Ht.
Defined.

(** *** What the cache is keyed on *)

(** X16. The cache distinguishes calls by their key alone: whenever the
    key of a call equals the key of an earlier call on the same registry,
    it is answered with the tools of that earlier call and an empty
    exclusion list, whatever else differs between the two
    configurations. *)
Theorem equal_keys_share_the_answer
    (registry : ToolRegistry) (config1 config2 : ResolvedConfig)
    (options1 options2 : ToolFilterOptions) :
  createFilterCacheKey config1 options1
  = createFilterCacheKey config2 options2 →
  let first := filterTools registry config1 options1 in
  let second := filterTools first.2 config2 options2 in
  Result.tools second.1 = Result.tools first.1
  ∧ Result.excluded second.1 = []
  ∧ second.2 = first.2.
Proof.
  intros Hkey first second.
  pose proof (filterTools_caches config1 options1 registry) as Hcached.
  fold first in Hcached. rewrite Hkey in Hcached.
  unfold second. by rewrite (filterTools_hit _ _ _ _ Hcached).
Qed.

Lemma equal_keys_share_the_answer_witness :
  let first := filterTools debug_only (debug_config false) no_filter_options in
  let second := filterTools first.2 (debug_config true) no_filter_options in
  Result.tools second.1 = Result.tools first.1
  ∧ Result.excluded second.1 = []
  ∧ second.2 = first.2.
Proof.
  apply (equal_keys_share_the_answer debug_only (debug_config false)
           (debug_config true) no_filter_options no_filter_options).
  reflexivity.
Defined.

(** the key is made of [availableTools] and the options: no other
    setting contributes, and an empty list option contributes what an
    absent one does *)
Lemma cache_key_ignores_settings (config1 config2 : ResolvedConfig)
    (options : ToolFilterOptions) :
  availableTools config1 = availableTools config2 →
  createFilterCacheKey config1 options = createFilterCacheKey config2 options.
Proof. unfold createFilterCacheKey. by intros ->. Qed.

(** X17. A filter call never registers or removes a tool and never
    changes or drops a cached list; a call that misses the cache adds
    exactly the entry of its own key. *)
Theorem filterTools_frame
    (registry : ToolRegistry) (config : ResolvedConfig)
    (options : ToolFilterOptions) :
  let result := (filterTools registry config options).1 in
  let registry' := (filterTools registry config options).2 in
  tools registry' = tools registry
  ∧ (∀ key cached, filteredCache registry !! key = Some cached →
       filteredCache registry' !! key = Some cached)
  ∧ (∀ key, key ≠ createFilterCacheKey config options →
       filteredCache registry' !! key = filteredCache registry !! key)
  ∧ filteredCache registry' !! createFilterCacheKey config options
    = Some (Result.tools result)
  ∧ size (filteredCache registry')
    = if decide (is_Some (filteredCache registry
                            !! createFilterCacheKey config options))
      then size (filteredCache registry)
      else S (size (filteredCache registry)).
Proof.
  intros result registry'. subst result registry'.
  split; [apply filterTools_tools|].
  split; [intros key cached; apply filterTools_keeps_cache|].
  split; [|split; [apply filterTools_caches|]].
  - intros key Hne.
    destruct (filteredCache registry !! createFilterCacheKey config options)
      as [cached|] eqn:E.
    + by rewrite (filterTools_hit _ _ _ _ E).
    + destruct (filterTools_miss config options registry E)
        as (_ & _ & _ & ->).
      simpl. by rewrite lookup_insert_ne.
  - destruct (filteredCache registry !! createFilterCacheKey config options)
      as [cached|] eqn:E.
    + rewrite decide_True by (by eexists).
      by rewrite (filterTools_hit _ _ _ _ E).
    + rewrite decide_False by (by intros [? ?]).
      destruct (filterTools_miss config options registry E)
        as (_ & _ & _ & ->).
      simpl. by apply map_size_insert_None.
Qed.

Lemma filterTools_frame_witness :
  let registry' := (filterTools two_tools (only ["a"]) no_filter_options).2 in
  let registry'' := (filterTools registry' (only []) no_filter_options).2 in
  filteredCache registry'' !! createFilterCacheKey (only ["a"]) no_filter_options
  = Some [tool_a].
Proof.
  intros registry' registry''.
  destruct (filterTools_frame registry' (only []) no_filter_options)
    as (_ & Hkeep & _).
  apply Hkeep. vm_compute. reflexivity.
Defined.

(** a single required tag already narrows the result *)
Example required_tag_narrows :
  Result.tools
    (filterTools three_tools (only [])
       {| include := None; exclude := None; categories := None;
          requiredTags := Some ["basic"]; includeAuthRequired := None;
          config := None |}).1
  = [secured_tool].
Proof. reflexivity. Qed.
(** ** Further properties: the health report and the start-up registry *)

(** *** Sensitive names survive key normalization *)











(** *** The configuration section of the health report *)

Lemma health_configuration_lookup (config : FlexibleConfig)
    (count : JsValue) (key : string) :
  (map_imap (fun key value => Some (redact_entry key value)) config
     ∪ <["availableToolsCount" := count]> config) !! key
  = match config !! key with
    | Some value => Some (redact_entry key value)
    | None => if decide (key = "availableToolsCount") then Some count
              else None
    end.
Proof.
  destruct (config !! key) as [v|] eqn:E.
  - apply lookup_union_Some_l. by rewrite map_lookup_imap, E.
  - rewrite lookup_union_r by (by rewrite map_lookup_imap, E).
    case_decide as Hk.
    + subst key. by rewrite lookup_insert_eq.
    + rewrite lookup_insert_ne by congruence. exact E.
Qed.

(** X18. The configuration section of the health report never shows the
    value of a sensitive key: for a configuration whose [availableTools]
    is an array, the section holds the keys of the configuration and
    [availableToolsCount]; every key whose name contains [pass],
    [secret] or [token], in any letter case, is shown as ["[REDACTED]"];
    every other key of the configuration is shown with its own value
    (also a key named [availableToolsCount], which then replaces the
    count); otherwise [availableToolsCount] is the length of the
    array. *)
Theorem health_configuration_redacts
    (config : FlexibleConfig) (names : list JsValue) :
  config !! "availableTools" = Some (JArr names) →
  ∃ shown,
    health_configuration config = Some shown
    ∧ dom shown = dom config ∪ {["availableToolsCount"]}
    ∧ (∀ key value, shown !! key = Some value →
         is_sensitive key = true → value = redacted)
    ∧ (∀ key value, config !! key = Some value →
         is_sensitive key = false → shown !! key = Some value)
    ∧ (config !! "availableToolsCount" = None →
         shown !! "availableToolsCount"
         = Some (JNum (inject_Z (Z.of_nat (length names))))).
Proof.
  intros Ht. unfold health_configuration, get. rewrite Ht.
  cbn [default length_of mbind option_bind].
  eexists. split; [reflexivity|].
  split; [|split; [|split]].
  - apply set_eq. intros key.
    rewrite elem_of_union, !elem_of_dom, elem_of_singleton,
      health_configuration_lookup.
    destruct (config !! key) as [v|].
    + split; [left|]; by eexists.
    + case_decide as Hk.
      * split; [by right|by eexists].
      * split; [by intros [? ?]|]. intros [[? ?]|?]; done.
  - intros key value Hk Hs. rewrite health_configuration_lookup in Hk.
    destruct (config !! key) as [v|].
    + unfold redact_entry in Hk. rewrite Hs in Hk. by injection Hk as <-.
    + case_decide as Hc; [|done]. subst key. vm_compute in Hs. done.
  - intros key value Hk Hs. rewrite health_configuration_lookup, Hk.
    unfold redact_entry. by rewrite Hs.
  - intros Hc. by rewrite health_configuration_lookup, Hc.
Qed.

Lemma health_configuration_redacts_witness :
  ∃ ctx shown,
    resolveConfig credential_headers credential_env = Some ctx
    ∧ health_configuration (own (resolved ctx)) = Some shown
    ∧ shown !! "apiToken" = Some redacted
    ∧ shown !! "dbPassword" = Some redacted
    ∧ shown !! "region" = Some (JStr "eu")
    ∧ shown !! "availableToolsCount" = Some (JNum (inject_Z 3)).
Proof.
  destruct (resolveConfig credential_headers credential_env) as [ctx|] eqn:Hctx;
    [|vm_compute in Hctx; discriminate].
  assert (Hown : own (resolved ctx)
                 = own (resolved (default ctx (resolveConfig credential_headers
                                                 credential_env))))
    by (by rewrite Hctx).
  destruct (health_configuration_redacts (own (resolved ctx))
              [JStr "add"; JStr "calculate"; JStr "health_check"])
    as (shown & Hshown & Hdom & Hsens & Hplain & Hcount).
  - rewrite Hown. vm_compute. reflexivity.
  - exists ctx, shown. split; [reflexivity|]. split; [exact Hshown|].
    assert (Hkey : ∀ key,
      is_Some (own (resolved ctx) !! key) →
      is_sensitive key = true → shown !! key = Some redacted).
    { intros key Hk Hs.
      assert (key ∈ dom shown) as [value Hv]%elem_of_dom.
      { rewrite Hdom. apply elem_of_union. left. by apply elem_of_dom. }
      rewrite Hv. f_equal. by eapply Hsens. }
    split; [|split; [|split]].
    + apply Hkey; [rewrite Hown; vm_compute; by eexists
                  |vm_compute; reflexivity].
    + apply Hkey; [rewrite Hown; vm_compute; by eexists
                  |vm_compute; reflexivity].
    + apply Hplain; [rewrite Hown|]; vm_compute; reflexivity.
    + apply Hcount. rewrite Hown. vm_compute. reflexivity.
Defined.

(** *** Credentials of a request in the health report *)





(** *** The tools of a fresh agent *)

Lemma env_lookup_none (env : JsValue) (key : string) :
  (∀ name value, (name, JStr value) ∈ Object_entries env →
     upperCaseToCamelCase name ≠ key) →
  extractEnvConfig env !! key = None.
Proof.
  intros Hnone. unfold extractEnvConfig.
  destruct (negb (truthy env) || negb (typeof_object env)); [done|].
  rewrite env_untouched; [done|].
  apply Forall_forall. intros [name v] Hin s Hv. cbn [fst snd] in *.
  subst v. by eapply Hnone.
Qed.

(** X20. What a fresh agent exposes by default: after [init] has
    registered the example tools, a request with ordinary headers and
    without a [to-use] header, in a deployment that sets neither a
    default nor an available tool list (nor a variable that normalizes
    to [hasOwnProperty]), resolves to a configuration for which the first
    filter call returns [add], [calculate] and [health_check], in that
    order, and excludes the three API tools, each for not being in the
    requested list; the summary counts six tools, three included and
    three excluded. *)
Theorem fresh_agent_exposes_default_tools (headers : Headers) (env : JsValue) :
  "to-use" ∉ headers.*1 →
  ordinary_headers headers →
  (∀ name value, (name, JStr value) ∈ Object_entries env →
     upperCaseToCamelCase name ≠ "defaultTools"
     ∧ upperCaseToCamelCase name ≠ "availableTools"
     ∧ upperCaseToCamelCase name ≠ "hasOwnProperty") →
  ∃ ctx config,
    resolveConfig headers env = Some ctx
    ∧ typed_config (own (resolved ctx)) = Some config
    ∧ let result := (filterTools (MyMCP_init toolRegistry) config
                       no_filter_options).1 in
      Result.tools result = [addTool; calculateTool; healthCheckTool]
      ∧ Result.excluded result = not_requested <$> apiTools
      ∧ Result.summary result = default_summary.
Proof.
  intros Hno Hord Henv.
  assert (Hd : extractEnvConfig env !! "defaultTools" = None).
  { apply env_lookup_none. intros name value Hin.
    by destruct (Henv name value Hin) as (? & ? & ?). }
  assert (Ha : extractEnvConfig env !! "availableTools" = None).
  { apply env_lookup_none. intros name value Hin.
    by destruct (Henv name value Hin) as (? & ? & ?). }
  assert (Hm : extractEnvConfig env !! "hasOwnProperty" = None).
  { apply env_lookup_none. intros name value Hin.
    by destruct (Henv name value Hin) as (? & ? & ?). }
  destruct (resolveConfig_returns headers env
              (ordinary_resolvable headers env Hord Hm))
    as (ctx & Hctx & _ & Ht & _).
  assert (Hlist : resolveToolFiltering (extractHeaderConfig headers)
                    (plain (extractEnvConfig env)) (plain getDefaultConfig)
                  = JArr [JStr "add"; JStr "calculate";
                          JStr "health_check"]).
  { unfold resolveToolFiltering.
    rewrite (no_to_use_read headers Hno Hord), !obj_read_plain.
    unfold get. rewrite Hd, Ha. vm_compute. reflexivity. }
  rewrite Hlist in Ht.
  exists ctx. unfold typed_config. rewrite Ht.
  generalize (delete "availableTools" (own (resolved ctx))).
  intros settings.
  exists {| availableTools := ["add"; "calculate"; "health_check"];
            settings := settings |}.
  split; [exact Hctx|]. split; [reflexivity|].
  cbv zeta. split; [|split]; vm_compute; reflexivity.
Qed.

Lemma fresh_agent_exposes_default_tools_witness :
  ∃ ctx config,
    resolveConfig [] (JObj []) = Some ctx
    ∧ typed_config (own (resolved ctx)) = Some config
    ∧ name <$> Result.tools (filterTools (MyMCP_init toolRegistry) config
                               no_filter_options).1
      = ["add"; "calculate"; "health_check"]
    ∧ Exclusion.tool <$> Result.excluded
                           (filterTools (MyMCP_init toolRegistry) config
                              no_filter_options).1
      = ["api_get"; "api_post"; "api_health"].
Proof.
  destruct (fresh_agent_exposes_default_tools [] (JObj []))
    as (ctx & config & Hctx & Hconfig & Htools & Hexcluded & _).
  - apply not_elem_of_nil.
  - split; apply not_elem_of_nil.
  - intros name value Hin. by apply elem_of_nil in Hin.
  - exists ctx, config. split; [exact Hctx|]. split; [exact Hconfig|].
    rewrite Htools, Hexcluded. split; reflexivity.
Defined.
